(** * Telegram phone checker: the FastAPI wrapper [app_main.py]

    A shallow embedding of the request pipeline of [src/app_main.py]
    (phone normalisation, the lazily created shared Telegram client, the
    translation of a lookup record into one response string, the GET and
    POST handlers and the shutdown hook), and the properties the
    specification states about it.

    Python [str] values are sequences of Unicode code points; the external
    collaborators ([login], [get_user_info_by_phone], [disconnect], the
    logger) are an environment whose answers may depend on everything that
    happened before, and every call to them is recorded in a trace. *)

From Stdlib Require Import ZArith List Bool Lia Ascii String DecimalString.
From stdpp Require Import base decidable option list strings gmap fin_maps.

Local Open Scope Z_scope.

(** ** Strings as code points *)

Module Str.

(** A Python [str]: the list of its Unicode code points. *)
Definition str := list Z.

(** UTF-8 decoding, used only to write the string literals of the source
    the way the source writes them. *)
Fixpoint utf8_decode (bs : list Z) : str :=
  match bs with
  | [] => []
  | b0 :: r0 =>
    if b0 <? 128 then b0 :: utf8_decode r0
    else
      match r0 with
      | [] => []
      | b1 :: r1 =>
        if b0 <? 224 then ((b0 mod 32) * 64 + b1 mod 64) :: utf8_decode r1
        else
          match r1 with
          | [] => []
          | b2 :: r2 =>
            if b0 <? 240
            then ((b0 mod 16) * 4096 + (b1 mod 64) * 64 + b2 mod 64)
                   :: utf8_decode r2
            else
              match r2 with
              | [] => []
              | b3 :: r3 =>
                ((b0 mod 8) * 262144 + (b1 mod 64) * 4096
                 + (b2 mod 64) * 64 + b3 mod 64) :: utf8_decode r3
              end
          end
      end
  end.

Definition lit (s : string) : str :=
  utf8_decode (map (fun a => Z.of_N (N_of_ascii a)) (list_ascii_of_string s)).

(** [s.startswith(p)] *)
Fixpoint startswith (s p : str) {struct p} : bool :=
  match p, s with
  | [], _ => true
  | _ :: _, [] => false
  | a :: p', b :: s' => (a =? b) && startswith s' p'
  end.

(** [needle in hay] on [str]: substring search. *)
Fixpoint contains (hay needle : str) : bool :=
  startswith hay needle
  || match hay with
     | [] => false
     | _ :: hay' => contains hay' needle
     end.

(** Membership of a code point in a table of inclusive ranges. *)
Definition in_ranges (tbl : list (Z * Z)) (c : Z) : bool :=
  existsb (fun r => (fst r <=? c) && (c <=? snd r)) tbl.

(** The characters [\s] matches in a [str] pattern (CPython's
    [Py_UNICODE_ISSPACE]). *)
Definition whitespace_table : list (Z * Z) :=
  [ (9, 13); (28, 32); (133, 133); (160, 160); (5760, 5760); (8192, 8202);
    (8232, 8233); (8239, 8239); (8287, 8287); (12288, 12288) ].

(** The characters [\d] matches in a [str] pattern: the Unicode decimal
    digits (category Nd; the table of Unicode 14.0, CPython 3.11). *)
Definition decimal_table : list (Z * Z) :=
  [ (48, 57); (1632, 1641); (1776, 1785); (1984, 1993); (2406, 2415);
    (2534, 2543); (2662, 2671); (2790, 2799); (2918, 2927); (3046, 3055);
    (3174, 3183); (3302, 3311); (3430, 3439); (3558, 3567); (3664, 3673);
    (3792, 3801); (3872, 3881); (4160, 4169); (4240, 4249); (6112, 6121);
    (6160, 6169); (6470, 6479); (6608, 6617); (6784, 6793); (6800, 6809);
    (6992, 7001); (7088, 7097); (7232, 7241); (7248, 7257); (42528, 42537);
    (43216, 43225); (43264, 43273); (43472, 43481); (43504, 43513);
    (43600, 43609); (44016, 44025); (65296, 65305); (66720, 66729);
    (68912, 68921); (69734, 69743); (69872, 69881); (69942, 69951);
    (70096, 70105); (70384, 70393); (70736, 70745); (70864, 70873);
    (71248, 71257); (71360, 71369); (71472, 71481); (71904, 71913);
    (72016, 72025); (72784, 72793); (73040, 73049); (73120, 73129);
    (92768, 92777); (92864, 92873); (93008, 93017); (120782, 120831);
    (123200, 123209); (123632, 123641); (125264, 125273); (130032, 130041) ].

Definition is_space (c : Z) : bool := in_ranges whitespace_table c.
Definition is_decimal (c : Z) : bool := in_ranges decimal_table c.

(** [re.sub(r"\s+", repl, s)]: every maximal run of whitespace is replaced
    by one copy of [repl]; [in_run] tells whether the previous character
    belonged to the run being replaced. *)
Fixpoint re_sub_spaces (repl : str) (in_run : bool) (s : str) : str :=
  match s with
  | [] => []
  | c :: s' =>
    if is_space c
    then (if in_run then [] else repl) ++ re_sub_spaces repl true s'
    else c :: re_sub_spaces repl false s'
  end.

(** [re.fullmatch(r"\+\d{5,20}", s) is not None] *)
Definition fullmatch_plus_digits (s : str) : bool :=
  match s with
  | [] => false
  | c :: ds =>
    (c =? 43) && (5 <=? length ds)%nat && (length ds <=? 20)%nat
    && forallb is_decimal ds
  end.

End Str.

Import Str.

(** ** Python values and exceptions *)

(** The values a lookup record holds, as far as the code looks at them:
    through [bool(v)], [str(v)] and the f-string conversion. [VOther]
    stands for any other object whose [str] returns (a list of names, a
    date), given by these two observations. *)
Inductive pyval :=
| VNone
| VBool (b : bool)
| VInt (z : Z)
| VStr (s : str)
| VOther (truth : bool) (text : str).

#[global] Instance pyval_eq_dec : EqDecision pyval.
Proof. solve_decision. Defined.

(** [bool(v)] *)
Definition truthy (v : pyval) : bool :=
  match v with
  | VNone => false
  | VBool b => b
  | VInt z => negb (z =? 0)
  | VStr s => match s with [] => false | _ :: _ => true end
  | VOther t _ => t
  end.

(** The exceptions, by the [except] clause that catches them in
    [check_phone]: [ValueError] (and its subclasses) with the text [str(e)];
    any other subclass of [Exception]; FastAPI's [HTTPException]; and the
    exceptions outside [Exception] ([asyncio.CancelledError],
    [KeyboardInterrupt], [SystemExit]). *)
Inductive exn :=
| ValueError (text : str)
| OtherError (text : str)
| HTTPException (status_code : Z) (detail : str)
| NonException (text : str).

Inductive outcome (A : Type) :=
| Returns (a : A)
| Raises (e : exn).
Arguments Returns {A} a.
Arguments Raises {A} e.

(** CPython refuses to write an [int] of more than 4300 decimal digits
    ([sys.int_info.default_max_str_digits], which the module does not
    change): [str] and the f-string conversion then raise a [ValueError]
    with this text. *)
Definition INT_MAX_STR_DIGITS : Z := 4300.

Definition MSG_INT_LIMIT : str :=
  Eval vm_compute in
    lit "Exceeds the limit (4300 digits) for integer string conversion; use sys.set_int_max_str_digits() to increase the limit".

(** [str(v)], which is also what [f"{v}"] inserts. *)
Definition py_str (v : pyval) : outcome str :=
  match v with
  | VNone => Returns (lit "None")
  | VBool true => Returns (lit "True")
  | VBool false => Returns (lit "False")
  | VInt z =>
    if Z.abs z <? 10 ^ INT_MAX_STR_DIGITS
    then Returns (lit (NilZero.string_of_int (Z.to_int z)))
    else Raises (ValueError MSG_INT_LIMIT)
  | VStr s => Returns s
  | VOther _ t => Returns t
  end.

(** A [dict] with string keys. *)
Abbreviation dict := (gmap string pyval).

(** [d.get(k)]: the value, or [None] when the key is missing. *)
Definition dict_get (d : dict) (k : string) : pyval := default VNone (d !! k).

(** ** The literal strings of the source *)

(** The messages are decoded once, so that each constant is the plain list
    of its code points. *)
Definition MSG_EMPTY_PHONE : str :=
  Eval vm_compute in lit "Пустой номер телефона".
Definition MSG_BAD_FORMAT : str :=
  Eval vm_compute in lit "Неверный формат номера телефона".
Definition MSG_UNKNOWN : str :=
  Eval vm_compute in lit "Неизвестная ошибка".
Definition MSG_NO_USER : str :=
  Eval vm_compute in
    lit "Нет такого пользователя в Telegram или заблокировано добавление в контакты".
Definition MSG_MULTIPLE : str :=
  Eval vm_compute in
    lit "Номер привязан к нескольким аккаунтам (неожиданная ситуация)".
Definition MSG_NO_USERNAME : str :=
  Eval vm_compute in lit "У пользователя нет username".
Definition MSG_UNDETERMINED : str :=
  Eval vm_compute in lit "Не удалось определить информацию по номеру".
Definition MSG_INTERNAL : str :=
  Eval vm_compute in lit "Внутренняя ошибка сервиса".

(** ** Phone normalisation (lines 25-40) *)

Definition _normalize_phone (phone : str) : outcome str :=
  match phone with
  | [] => Raises (ValueError MSG_EMPTY_PHONE)
  | _ :: _ =>
    let normalized := re_sub_spaces [] false phone in
    let normalized :=
      if negb (startswith normalized (lit "+"))
      then lit "+" ++ normalized
      else normalized in
    if negb (fullmatch_plus_digits normalized)
    then Raises (ValueError MSG_BAD_FORMAT)
    else Returns normalized
  end.

(** ** The translation of a lookup record (lines 63-88) *)

(** What [get_user_info_by_phone] hands back: no record, or a [dict]. *)
Abbreviation info := (option dict).

(** [not info] holds for [None] and for the empty [dict]. The subscript
    [info["error"]] is evaluated only where the key was found, and there it
    is [dict_get]. *)

Definition translate_info (i : info) : outcome str :=
  match i with
  | None => Returns MSG_UNKNOWN
  | Some d =>
    if bool_decide (d = ∅) then Returns MSG_UNKNOWN
    else if match d !! "error"%string with
            | Some v => truthy v
            | None => false
            end
    then
      match py_str (dict_get d "error") with
      | Raises e => Raises e
      | Returns error_text =>
        if contains error_text (lit "not on Telegram")
        then Returns MSG_NO_USER
        else if contains error_text (lit "multiple Telegram accounts")
        then Returns MSG_MULTIPLE
        else Returns error_text
      end
    else
      let username := dict_get d "username" in
      if truthy username
      then
        match py_str username with
        | Raises e => Raises e
        | Returns text => Returns (lit "@" ++ text)
        end
      else if truthy (dict_get d "id") then Returns MSG_NO_USERNAME
      else Returns MSG_UNDETERMINED
  end.

(** ** The environment and the shared state *)

(** A [TelegramClient] object, by identity. *)
Definition handle := nat.

(** Every call that leaves the module, with what it answered. *)
Inductive event :=
| EvLogin (r : outcome handle)
| EvLookup (client : handle) (phone : str) (r : outcome info)
| EvDisconnect (client : handle) (r : outcome unit)
| EvLog (phone : str) (e : exn).

(** The collaborators imported from [telegram_phone_number_checker.main]
    and the client's [disconnect]: each answer may depend on all earlier
    events. [login] is always called with [api_id=None], [api_hash=None],
    [phone_number=None]. *)
Record Env := {
  login : list event -> outcome handle;
  get_user_info_by_phone : list event -> handle -> str -> outcome info;
  disconnect : list event -> handle -> outcome unit
}.

(** The module-level [_client] and the trace of external calls so far. *)
Record world := {
  _client : option handle;
  trace : list event
}.

Definition initial : world := {| _client := None; trace := [] |}.

(** Computations that read and write the world and may raise. *)
Definition M (A : Type) : Type := world -> outcome A * world.

Definition ret {A} (a : A) : M A := fun w => (Returns a, w).

Definition raise {A} (e : exn) : M A := fun w => (Raises e, w).

Definition bind {A B} (m : M A) (k : A -> M B) : M B :=
  fun w =>
    match m w with
    | (Returns a, w') => k a w'
    | (Raises e, w') => (Raises e, w')
    end.

Notation "x <- m ;; k" := (bind m (fun x => k))
  (at level 62, m at next level, right associativity).
Notation "m ;;; k" := (bind m (fun _ => k))
  (at level 62, right associativity).

Definition of_outcome {A} (r : outcome A) : M A := fun w => (r, w).

Definition read_client : M (option handle) := fun w => (Returns (_client w), w).

Definition write_client (c : option handle) : M unit :=
  fun w => (Returns tt, {| _client := c; trace := trace w |}).

Definition record (ev : event) (w : world) : world :=
  {| _client := _client w; trace := trace w ++ [ev] |}.

Definition await_login (env : Env) : M handle :=
  fun w => let r := login env (trace w) in (r, record (EvLogin r) w).

Definition await_lookup (env : Env) (c : handle) (p : str) : M info :=
  fun w =>
    let r := get_user_info_by_phone env (trace w) c p in
    (r, record (EvLookup c p r) w).

Definition await_disconnect (env : Env) (c : handle) : M unit :=
  fun w =>
    let r := disconnect env (trace w) c in
    (r, record (EvDisconnect c r) w).

Definition logger_exception (phone : str) (e : exn) : M unit :=
  fun w => (Returns tt, record (EvLog phone e) w).

(** ** The connection provider (lines 43-48) *)

Definition _get_or_create_client (env : Env) : M handle :=
  c <- read_client ;;
  match c with
  | None =>
    h <- await_login env ;;
    write_client (Some h) ;;;
    ret h
  | Some h => ret h
  end.

(** ** The pipeline (lines 51-88) *)

Definition _build_result_string (env : Env) (phone : str) : M str :=
  normalized <- of_outcome (_normalize_phone phone) ;;
  client <- _get_or_create_client env ;;
  i <- await_lookup env client normalized ;;
  of_outcome (translate_info i).

(** ** The shutdown hook (lines 91-96) *)

Definition shutdown_event (env : Env) : M unit :=
  c <- read_client ;;
  match c with
  | Some h =>
    await_disconnect env h ;;;
    write_client None
  | None => ret tt
  end.

(** ** The handlers (lines 99-123) *)

Definition result_dict (s : str) : dict := {[ "result"%string := VStr s ]}.

Definition check_phone (env : Env) (phone : str) : M dict :=
  fun w =>
    match _build_result_string env phone w with
    | (Returns result, w') => (Returns (result_dict result), w')
    | (Raises (ValueError text), w') => (Returns (result_dict text), w')
    | (Raises (NonException text), w') => (Raises (NonException text), w')
    | (Raises e, w') =>
      (logger_exception phone e ;;;
       raise (HTTPException 500 MSG_INTERNAL)) w'
    end.

(** The pydantic model of the POST body. *)
Record PhoneRequest := { phone : str }.

Definition check_phone_post (env : Env) (body : PhoneRequest) : M dict :=
  check_phone env (phone body).

(** What FastAPI sends for a handler's outcome: a returned [dict] is the
    JSON body of a 200 response, an [HTTPException] is a response with its
    status code and the body [{"detail": detail}]; any other exception is
    left to the framework. *)
Record response := { status : Z; body : dict }.

Definition http_response (r : outcome dict) : option response :=
  match r with
  | Returns d => Some {| status := 200; body := d |}
  | Raises (HTTPException code detail) =>
    Some {| status := code; body := {[ "detail"%string := VStr detail ]} |}
  | Raises _ => None
  end.

(** ** Sequential runs of the service *)

(** [m] called [n] times in a row, each call starting where the previous
    one stopped (whether it returned or raised). *)
Fixpoint repeat_call {A} (m : M A) (n : nat) (w : world)
  : list (outcome A) * world :=
  match n with
  | O => ([], w)
  | S n' =>
    let (r, w1) := m w in
    let (rs, w2) := repeat_call m n' w1 in
    (r :: rs, w2)
  end.

(** What can happen to the running service, one thing after the other:
    each request, provider call or shutdown is finished before the next
    starts. *)
Inductive request :=
| GetRequest (phone : str)
| PostRequest (body : PhoneRequest)
| ProviderCall
| Shutdown.

Definition serve (env : Env) (w : world) (rq : request) : world :=
  match rq with
  | GetRequest p => snd (check_phone env p w)
  | PostRequest b => snd (check_phone_post env b w)
  | ProviderCall => snd (_get_or_create_client env w)
  | Shutdown => snd (shutdown_event env w)
  end.

Definition run (env : Env) (rqs : list request) (w : world) : world :=
  fold_left (serve env) rqs w.

(** A successful [login] makes a connection handle, a successful
    [disconnect] ends one; [live tr] is the number of handles in existence
    after the events [tr]. *)
Definition handle_delta (ev : event) : Z :=
  match ev with
  | EvLogin (Returns _) => 1
  | EvDisconnect _ (Returns _) => -1
  | _ => 0
  end.

Definition live (tr : list event) : Z :=
  fold_right Z.add 0 (map handle_delta tr).

(** ** The vocabulary of the specification *)

(** "+ followed by 5 to 20 decimal digits" *)
Definition phone_shape (s : str) : Prop :=
  ∃ ds, s = 43 :: ds ∧ (5 ≤ length ds ≤ 20)%nat
        ∧ Forall (λ c, is_decimal c = true) ds.

(** "strips all whitespace" *)
Definition strip_whitespace (s : str) : str :=
  List.filter (λ c, negb (is_space c)) s.

(** "prepends + if absent" *)
Definition ensure_plus (s : str) : str :=
  match s with
  | [] => [43]
  | c :: _ => if c =? 43 then s else 43 :: s
  end.

(** [interspersed t s]: [s] is [t] with whitespace characters put in at
    any places. *)
Inductive interspersed : str -> str -> Prop :=
| interspersed_nil : interspersed [] []
| interspersed_keep c t s :
    interspersed t s -> interspersed (c :: t) (c :: s)
| interspersed_space c t s :
    is_space c = true -> interspersed t s -> interspersed t (c :: s).

(** The two messages an Invalid-Format error can carry. *)
Definition format_error_messages : list str :=
  [MSG_EMPTY_PHONE; MSG_BAD_FORMAT].

(** [needle] occurs in [hay]. *)
Definition substring (needle hay : str) : Prop :=
  ∃ pre post, hay = pre ++ needle ++ post.

(** The record carries a non-empty error field [v]. *)
Definition carries_error (d : dict) (v : pyval) : Prop :=
  d !! "error"%string = Some v ∧ truthy v = true.

(** The record carries the username [u]. *)
Definition carries_username (d : dict) (u : pyval) : Prop :=
  d !! "username"%string = Some u ∧ truthy u = true.

(** The record carries an identifier. *)
Definition carries_id (d : dict) : Prop :=
  ∃ v, d !! "id"%string = Some v ∧ truthy v = true.

(** [str] of the value returns: it is not an [int] beyond the limit. The
    strings and [None] the upstream contract gives for [error] and
    [username] are of this kind. *)
Definition str_succeeds (v : pyval) : Prop :=
  match v with
  | VInt z => Z.abs z < 10 ^ INT_MAX_STR_DIGITS
  | _ => True
  end.

(** The priority list of the result translator, one rule per line of the
    specification; each rule applies only when the ones above it do not.
    The error text and the username are what [str] makes of the field. *)
Inductive translation : info -> str -> Prop :=
| tr_absent :
    translation None MSG_UNKNOWN
| tr_empty :
    translation (Some ∅) MSG_UNKNOWN
| tr_not_on_telegram d v text :
    d ≠ ∅ -> carries_error d v -> py_str v = Returns text ->
    substring (lit "not on Telegram") text ->
    translation (Some d) MSG_NO_USER
| tr_multiple d v text :
    d ≠ ∅ -> carries_error d v -> py_str v = Returns text ->
    ¬ substring (lit "not on Telegram") text ->
    substring (lit "multiple Telegram accounts") text ->
    translation (Some d) MSG_MULTIPLE
| tr_raw_error d v text :
    d ≠ ∅ -> carries_error d v -> py_str v = Returns text ->
    ¬ substring (lit "not on Telegram") text ->
    ¬ substring (lit "multiple Telegram accounts") text ->
    translation (Some d) text
| tr_username d u text :
    d ≠ ∅ -> (∀ v, ¬ carries_error d v) -> carries_username d u ->
    py_str u = Returns text ->
    translation (Some d) (lit "@" ++ text)
| tr_no_username d :
    d ≠ ∅ -> (∀ v, ¬ carries_error d v) -> (∀ u, ¬ carries_username d u) ->
    carries_id d ->
    translation (Some d) MSG_NO_USERNAME
| tr_undetermined d :
    d ≠ ∅ -> (∀ v, ¬ carries_error d v) -> (∀ u, ¬ carries_username d u) ->
    ¬ carries_id d ->
    translation (Some d) MSG_UNDETERMINED.

(** Two range tables share no code point. *)
Definition disjoint_tables (t1 t2 : list (Z * Z)) : bool :=
  forallb (λ r1, forallb (λ r2, (snd r1 <? fst r2) || (snd r2 <? fst r1)) t2) t1.

(** "At most one connection handle exists at a time": after every prefix
    of the trace the number of handles in existence is 0 or 1. *)
Definition at_most_one (tr : list event) : Prop :=
  ∀ p, p `prefix_of` tr -> 0 ≤ live p ≤ 1.

(** The module-level [_client] holds the handle in existence, if any. *)
Definition consistent (w : world) : Prop :=
  live (trace w) = match _client w with Some _ => 1 | None => 0 end
  ∧ at_most_one (trace w).

(** Sample environments. In [env_alice] every call succeeds and the lookup
    finds the user alice; in [env_no_api_id] the login fails the way
    Telethon's client constructor does when no API id is configured. *)
Definition env_alice : Env := {|
  login := λ _, Returns 1%nat;
  get_user_info_by_phone :=
    λ _ _ _, Returns (Some {[ "username"%string := VStr (lit "alice") ]});
  disconnect := λ _ _, Returns tt
|}.

Definition MSG_TELETHON_API_ID : str :=
  Eval vm_compute in
    lit "Your API ID or Hash cannot be empty or None. Refer to telethon.rtfd.io for more information.".

Definition env_no_api_id : Env := {|
  login := λ _, Raises (ValueError MSG_TELETHON_API_ID);
  get_user_info_by_phone := λ _ _ _, Returns None;
  disconnect := λ _ _, Returns tt
|}.

(** In [env_lookup_fails] the login succeeds and the lookup raises a
    [ValueError]. *)
Definition env_lookup_fails : Env := {|
  login := λ _, Returns 1%nat;
  get_user_info_by_phone :=
    λ _ _ _, Raises (ValueError (lit "Cannot find any entity"));
  disconnect := λ _ _, Returns tt
|}.

(** ** Reading a trace *)

(** The handle a trace leaves in [_client]: the last one a [login] gave,
    unless a [disconnect] completed since. *)
Definition current_step (cur : option handle) (ev : event) : option handle :=
  match ev with
  | EvLogin (Returns h) => Some h
  | EvDisconnect _ (Returns _) => None
  | _ => cur
  end.

Definition current (tr : list event) : option handle :=
  fold_left current_step tr None.

Definition is_login (ev : event) : bool :=
  match ev with EvLogin _ => true | _ => false end.

Definition is_lookup (ev : event) : bool :=
  match ev with EvLookup _ _ _ => true | _ => false end.

Definition is_disconnect (ev : event) : bool :=
  match ev with EvDisconnect _ _ => true | _ => false end.

Definition is_log (ev : event) : bool :=
  match ev with EvLog _ _ => true | _ => false end.

Definition count (f : event -> bool) (evs : list event) : nat :=
  length (List.filter f evs).

(** The exception an external call ended with, if it raised. *)
Definition raised_by (ev : event) : option exn :=
  match ev with
  | EvLogin (Raises e) => Some e
  | EvLookup _ _ (Raises e) => Some e
  | EvDisconnect _ (Raises e) => Some e
  | _ => None
  end.

(** The exceptions the second [except] clause of [check_phone] handles. *)
Definition reaches_except_exception (e : exn) : Prop :=
  (∃ t, e = OtherError t) ∨ (∃ c t, e = HTTPException c t).

(** What an event may be, given the events [pre] before it. *)
Definition event_ok (pre : list event) (ev : event) : Prop :=
  match ev with
  | EvLogin _ => current pre = None
  | EvLookup c p _ => current pre = Some c ∧ phone_shape p
  | EvDisconnect h _ => current pre = Some h
  | EvLog _ e =>
    reaches_except_exception e
    ∧ ∃ pre' ev', pre = pre' ++ [ev'] ∧ is_disconnect ev' = false
                  ∧ raised_by ev' = Some e
  end.

Definition protocol (tr : list event) : Prop :=
  ∀ pre ev post, tr = pre ++ ev :: post -> event_ok pre ev.

Definition sound (w : world) : Prop :=
  _client w = current (trace w) ∧ protocol (trace w).

(** In [env_timeout] the login succeeds and the lookup raises an exception
    that is not a [ValueError]. *)
Definition env_timeout : Env := {|
  login := λ _, Returns 1%nat;
  get_user_info_by_phone := λ _ _ _, Raises (OtherError (lit "timed out"));
  disconnect := λ _ _, Returns tt
|}.

(** In [env_flaky] the first login raises and the later ones succeed; the
    first [disconnect] raises and the later ones complete. *)
Definition env_flaky : Env := {|
  login := λ tr,
    if existsb is_login tr then Returns 2%nat
    else Raises (OtherError (lit "connection refused"));
  get_user_info_by_phone := λ _ _ _, Returns (Some {[ "id"%string := VInt 5 ]});
  disconnect := λ tr _,
    if existsb is_disconnect tr then Returns tt
    else Raises (OtherError (lit "database is locked"))
|}.

(** ** The provider, one step at a time *)

(** What [_get_or_create_client] does once [login] has answered: the rest
    of line 47 and line 48. *)
Definition provider_resume (env : Env) : M handle :=
  h <- await_login env ;;
  write_client (Some h) ;;;
  ret h.

(** A call of [_get_or_create_client] in progress: not started, suspended
    at the [await] of line 47 (the test of line 45 found no handle and
    [login] has not answered yet), or finished. *)
Inductive provider_task :=
| NotStarted
| AwaitingLogin
| Finished (r : outcome handle).

(** The event loop runs one call up to its next suspension. *)
Definition provider_step (env : Env) (t : provider_task) (w : world)
  : provider_task * world :=
  match t with
  | NotStarted =>
    match _client w with
    | Some h => (Finished (Returns h), w)
    | None => (AwaitingLogin, w)
    end
  | AwaitingLogin =>
    let (r, w') := provider_resume env w in (Finished r, w')
  | Finished r => (Finished r, w)
  end.

(** Several calls in progress; [schedule] says which one runs next. *)
Fixpoint interleave (env : Env) (schedule : list nat)
    (tasks : list provider_task) (w : world) : list provider_task * world :=
  match schedule with
  | [] => (tasks, w)
  | i :: rest =>
    match tasks !! i with
    | Some t =>
      let (t', w') := provider_step env t w in
      interleave env rest (<[ i := t' ]> tasks) w'
    | None => interleave env rest tasks w
    end
  end.

(** In [env_fresh] every [login] succeeds and gives a new client object. *)
Definition env_fresh : Env := {|
  login := λ tr, Returns (S (count is_login tr));
  get_user_info_by_phone := λ _ _ _, Returns None;
  disconnect := λ _ _, Returns tt
|}.

(** * Properties *)

(** ** Strings *)

Example lit_plus : lit "+" = [43].
Proof. reflexivity. Qed.

Example lit_cyrillic : lit "Пу" = [1055; 1091].
Proof. reflexivity. Qed.

Lemma in_ranges_disjoint t1 t2 c :
  disjoint_tables t1 t2 = true ->
  in_ranges t1 c = true -> in_ranges t2 c = false.
Proof.
  unfold disjoint_tables, in_ranges. intros Hd H1.
  apply existsb_exists in H1 as [r1 [Hin1 Hr1]].
  rewrite forallb_forall in Hd. specialize (Hd r1 Hin1).
  rewrite forallb_forall in Hd.
  apply not_true_is_false. intros H2.
  apply existsb_exists in H2 as [r2 [Hin2 Hr2]].
  specialize (Hd r2 Hin2). lia.
Qed.

Lemma decimal_not_space c : is_decimal c = true -> is_space c = false.
Proof.
  apply in_ranges_disjoint. vm_compute. reflexivity.
Qed.

Lemma plus_not_space : is_space 43 = false.
Proof. reflexivity. Qed.

Lemma re_sub_spaces_strip b s : re_sub_spaces [] b s = strip_whitespace s.
Proof.
  revert b. induction s as [|c s IH]; intros b; simpl; [reflexivity|].
  destruct (is_space c); simpl.
  - destruct b; apply IH.
  - f_equal. apply IH.
Qed.

Lemma startswith_plus s :
  startswith s (lit "+") = match s with [] => false | c :: _ => c =? 43 end.
Proof.
  rewrite lit_plus. destruct s as [|c s]; [reflexivity|].
  cbn [startswith]. rewrite andb_true_r. apply Z.eqb_sym.
Qed.

Lemma add_plus_ensure s :
  (if negb (startswith s (lit "+")) then lit "+" ++ s else s) = ensure_plus s.
Proof.
  rewrite startswith_plus, lit_plus. destruct s as [|c s]; [reflexivity|].
  cbn [ensure_plus]. destruct (c =? 43); reflexivity.
Qed.

Lemma forallb_decimal ds :
  forallb is_decimal ds = true <-> Forall (λ c, is_decimal c = true) ds.
Proof.
  induction ds as [|c ds IH]; simpl.
  - split; [constructor | reflexivity].
  - rewrite andb_true_iff, IH. split.
    + intros [? ?]. constructor; assumption.
    + intros H. inversion H; subst. split; assumption.
Qed.

Lemma fullmatch_plus_digits_shape s :
  fullmatch_plus_digits s = true <-> phone_shape s.
Proof.
  unfold phone_shape. split.
  - destruct s as [|c ds]; cbn [fullmatch_plus_digits]; [discriminate|].
    intros H. rewrite !andb_true_iff in H. destruct H as [[[Hc Hlo] Hhi] Hds].
    apply Z.eqb_eq in Hc. apply Nat.leb_le in Hlo, Hhi.
    exists ds. subst c. split; [reflexivity|]. split; [lia|].
    apply forallb_decimal, Hds.
  - intros (ds & -> & Hlen & Hds). cbn [fullmatch_plus_digits].
    rewrite !andb_true_iff. apply forallb_decimal in Hds.
    repeat split; [apply Nat.leb_le; lia | apply Nat.leb_le; lia | exact Hds].
Qed.

Lemma strip_whitespace_id s :
  Forall (λ c, is_space c = false) s -> strip_whitespace s = s.
Proof.
  induction 1 as [|c s Hc _ IH]; simpl; [reflexivity|].
  rewrite Hc. simpl. f_equal. exact IH.
Qed.

Lemma strip_interspersed t s :
  interspersed t s -> Forall (λ c, is_space c = false) t ->
  strip_whitespace s = t.
Proof.
  induction 1 as [|c t s _ IH|c t s Hc _ IH]; intros Ht; simpl.
  - reflexivity.
  - inversion Ht; subst. rewrite H1. simpl. f_equal. apply IH. assumption.
  - rewrite Hc. simpl. apply IH. assumption.
Qed.

Lemma phone_shape_no_space s :
  phone_shape s -> Forall (λ c, is_space c = false) s.
Proof.
  intros (ds & -> & _ & Hds). constructor; [apply plus_not_space|].
  eapply Forall_impl; [exact Hds|]. intros c. apply decimal_not_space.
Qed.

Lemma phone_shape_ensure_plus s : phone_shape s -> ensure_plus s = s.
Proof. intros (ds & -> & _). reflexivity. Qed.

Lemma not_phone_shape_plus : ¬ phone_shape [43].
Proof. intros (ds & Heq & Hlen & _). inversion Heq; subst. simpl in Hlen. lia. Qed.

(** ** Phone normalisation *)

Lemma normalize_phone_unfold phone :
  _normalize_phone phone =
  match phone with
  | [] => Raises (ValueError MSG_EMPTY_PHONE)
  | _ :: _ =>
    if fullmatch_plus_digits (ensure_plus (strip_whitespace phone))
    then Returns (ensure_plus (strip_whitespace phone))
    else Raises (ValueError MSG_BAD_FORMAT)
  end.
Proof.
  destruct phone as [|c phone]; [reflexivity|].
  unfold _normalize_phone. rewrite re_sub_spaces_strip, add_plus_ensure.
  destruct (fullmatch_plus_digits _); reflexivity.
Qed.

Lemma normalize_phone_returns phone n :
  _normalize_phone phone = Returns n ->
  n = ensure_plus (strip_whitespace phone) ∧ phone_shape n.
Proof.
  rewrite normalize_phone_unfold. destruct phone as [|c phone]; [discriminate|].
  destruct (fullmatch_plus_digits _) eqn:Hm; [|discriminate].
  intros [= <-]. split; [reflexivity|]. apply fullmatch_plus_digits_shape, Hm.
Qed.

Lemma normalize_phone_accepts phone :
  phone_shape (ensure_plus (strip_whitespace phone)) ->
  _normalize_phone phone = Returns (ensure_plus (strip_whitespace phone)).
Proof.
  intros Hs. rewrite normalize_phone_unfold. destruct phone as [|c phone].
  - exfalso. apply not_phone_shape_plus, Hs.
  - apply fullmatch_plus_digits_shape in Hs. rewrite Hs. reflexivity.
Qed.

Lemma normalize_phone_rejects phone :
  ¬ phone_shape (ensure_plus (strip_whitespace phone)) ->
  ∃ text, _normalize_phone phone = Raises (ValueError text)
          ∧ text ∈ format_error_messages.
Proof.
  intros Hs. rewrite normalize_phone_unfold. destruct phone as [|c phone].
  - exists MSG_EMPTY_PHONE. split; [reflexivity|]. apply list_elem_of_here.
  - destruct (fullmatch_plus_digits _) eqn:Hm.
    + exfalso. apply Hs, fullmatch_plus_digits_shape, Hm.
    + exists MSG_BAD_FORMAT. split; [reflexivity|].
      apply list_elem_of_further, list_elem_of_here.
Qed.

Example normalize_spaced : _normalize_phone (lit "+1 234 567") = Returns (lit "+1234567").
Proof. vm_compute. reflexivity. Qed.

Example normalize_adds_plus :
  _normalize_phone (lit " 7999 1234567 ") = Returns (lit "+79991234567").
Proof. vm_compute. reflexivity. Qed.

Example normalize_too_short :
  _normalize_phone (lit "+1234") = Raises (ValueError MSG_BAD_FORMAT).
Proof. vm_compute. reflexivity. Qed.

Example normalize_blank :
  _normalize_phone (lit "  ") = Raises (ValueError MSG_BAD_FORMAT).
Proof. vm_compute. reflexivity. Qed.

(** [\d] is the Unicode class: Arabic-Indic digits are digits. *)
Example normalize_arabic_indic :
  _normalize_phone (lit "١٢٣٤٥") = Returns (lit "+١٢٣٤٥").
Proof. vm_compute. reflexivity. Qed.

(** C2. [_normalize_phone] removes all whitespace and puts a [+] in front
    when there is none; it returns that string exactly when it is a [+]
    followed by 5 to 20 decimal digits, and otherwise raises a [ValueError]
    carrying one of the two format messages. In particular a string that is
    [+] and 5 to 20 digits with whitespace put in anywhere normalises to
    that string without the whitespace. *)
Theorem normalize_phone_contract (phone : str) :
  let n := ensure_plus (strip_whitespace phone) in
  (phone_shape n -> _normalize_phone phone = Returns n)
  ∧ (¬ phone_shape n ->
     ∃ text, _normalize_phone phone = Raises (ValueError text)
             ∧ text ∈ format_error_messages)
  ∧ (∀ t, phone_shape t -> interspersed t phone ->
          _normalize_phone phone = Returns t
          ∧ t = strip_whitespace phone ∧ t = n).
Proof.
  cbv zeta. split; [apply normalize_phone_accepts|].
  split; [apply normalize_phone_rejects|].
  intros t Ht Hi.
  assert (Hst : strip_whitespace phone = t).
  { apply strip_interspersed; [exact Hi | apply phone_shape_no_space, Ht]. }
  assert (Hn : ensure_plus (strip_whitespace phone) = t).
  { rewrite Hst. apply phone_shape_ensure_plus, Ht. }
  split; [|split; congruence].
  pose proof (normalize_phone_accepts phone) as Ha.
  rewrite Hn in Ha. exact (Ha Ht).
Qed.

Lemma phone_shape_example : phone_shape (lit "+1234567").
Proof.
  exists (lit "1234567"). split; [reflexivity|]. split; [simpl; lia|].
  apply forallb_decimal. reflexivity.
Qed.

Lemma interspersed_example : interspersed (lit "+1234567") (lit "+1 234 567").
Proof.
  vm_compute.
  repeat (first [ apply interspersed_nil
                | apply interspersed_keep
                | apply interspersed_space; [reflexivity|] ]).
Qed.

Lemma normalize_phone_contract_witness :
  _normalize_phone (lit "+1 234 567") = Returns (lit "+1234567")
  ∧ lit "+1234567" = strip_whitespace (lit "+1 234 567")
  ∧ lit "+1234567" = ensure_plus (strip_whitespace (lit "+1 234 567")).
Proof.
  apply (proj2 (proj2 (normalize_phone_contract (lit "+1 234 567")))).
  - exact phone_shape_example.
  - exact interspersed_example.
Defined.

(** C9. A string [_normalize_phone] returns is a fixed point of
    [_normalize_phone]. *)
Theorem normalize_phone_idempotent (phone n : str) :
  _normalize_phone phone = Returns n -> _normalize_phone n = Returns n.
Proof.
  intros H. apply normalize_phone_returns in H as [_ Hn].
  assert (Hs : strip_whitespace n = n).
  { apply strip_whitespace_id, phone_shape_no_space, Hn. }
  assert (He : ensure_plus (strip_whitespace n) = n).
  { rewrite Hs. apply phone_shape_ensure_plus, Hn. }
  pose proof (normalize_phone_accepts n) as Ha.
  rewrite He in Ha. exact (Ha Hn).
Qed.

Lemma normalize_phone_idempotent_witness :
  _normalize_phone (lit "+1234567") = Returns (lit "+1234567").
Proof.
  apply (normalize_phone_idempotent (lit " 1 234 567")). reflexivity.
Defined.

(** ** The result translator *)

Lemma startswith_prefix s p : startswith s p = true <-> ∃ post, s = p ++ post.
Proof.
  revert s. induction p as [|a p IH]; intros s; cbn [startswith].
  - split; [intros _; exists s; reflexivity | reflexivity].
  - destruct s as [|b s].
    + split; [discriminate | intros [post H]; discriminate].
    + rewrite andb_true_iff, IH, Z.eqb_eq. split.
      * intros [-> [post ->]]. exists post. reflexivity.
      * intros [post H]. inversion H; subst. split; [reflexivity|].
        exists post. reflexivity.
Qed.

Lemma contains_substring hay needle :
  contains hay needle = true <-> substring needle hay.
Proof.
  unfold substring. induction hay as [|c hay IH]; cbn [contains].
  - rewrite orb_false_r, startswith_prefix. split.
    + intros [post H]. exists [], post. exact H.
    + intros (pre & post & H). destruct pre as [|x pre]; [|discriminate].
      exists post. exact H.
  - rewrite orb_true_iff, startswith_prefix, IH. split.
    + intros [[post H]|(pre & post & H)].
      * exists [], post. exact H.
      * exists (c :: pre), post. rewrite H. reflexivity.
    + intros (pre & post & H). destruct pre as [|x pre].
      * left. exists post. exact H.
      * right. inversion H; subst. exists pre, post. reflexivity.
Qed.

Lemma contains_not_substring hay needle :
  contains hay needle = false <-> ¬ substring needle hay.
Proof.
  rewrite <- contains_substring. destruct (contains hay needle); split;
    congruence.
Qed.

Lemma carries_error_test d v :
  carries_error d v ->
  match d !! "error"%string with Some x => truthy x | None => false end = true
  ∧ dict_get d "error" = v.
Proof.
  intros [Hl Ht]. unfold dict_get. rewrite Hl. split; [exact Ht | reflexivity].
Qed.

Lemma no_error_test d :
  (∀ v, ¬ carries_error d v) <->
  match d !! "error"%string with Some x => truthy x | None => false end = false.
Proof.
  unfold carries_error. destruct (d !! "error"%string) as [x|]; split.
  - intros H. apply not_true_is_false. intros Ht. exact (H x (conj eq_refl Ht)).
  - intros H v [[= <-] Ht]. congruence.
  - reflexivity.
  - intros _ v [Hv _]. discriminate.
Qed.

Lemma carries_username_test d u :
  carries_username d u ->
  truthy (dict_get d "username") = true ∧ dict_get d "username" = u.
Proof.
  intros [Hl Ht]. unfold dict_get. rewrite Hl. split; [exact Ht | reflexivity].
Qed.

Lemma no_username_test d :
  (∀ u, ¬ carries_username d u) <-> truthy (dict_get d "username") = false.
Proof.
  unfold carries_username, dict_get.
  destruct (d !! "username"%string) as [x|]; simpl; split.
  - intros H. apply not_true_is_false. intros Ht. exact (H x (conj eq_refl Ht)).
  - intros H u [[= <-] Ht]. congruence.
  - reflexivity.
  - intros _ u [Hu _]. discriminate.
Qed.

Lemma carries_id_test d : carries_id d <-> truthy (dict_get d "id") = true.
Proof.
  unfold carries_id, dict_get.
  destruct (d !! "id"%string) as [x|]; simpl; split.
  - intros (v & [= <-] & Ht). exact Ht.
  - intros Ht. exists x. split; [reflexivity | exact Ht].
  - intros (v & Hv & _). discriminate.
  - discriminate.
Qed.

Lemma py_str_succeeds v : str_succeeds v <-> ∃ t, py_str v = Returns t.
Proof.
  destruct v as [|[]|z|s|b t]; cbn [str_succeeds py_str];
    try (split; [intros _; eexists; reflexivity | intros _; exact I]).
  destruct (Z.abs z <? 10 ^ INT_MAX_STR_DIGITS) eqn:Hz; split.
  - intros _. eexists. reflexivity.
  - intros _. apply Z.ltb_lt, Hz.
  - intros H. apply Z.ltb_lt in H. congruence.
  - intros [t Ht]. discriminate Ht.
Qed.

Lemma py_str_raises v e :
  py_str v = Raises e -> e = ValueError MSG_INT_LIMIT ∧ ¬ str_succeeds v.
Proof.
  intros H. split.
  - destruct v as [|[]|z|s|b t]; cbn [py_str] in H; try discriminate H.
    destruct (Z.abs z <? 10 ^ INT_MAX_STR_DIGITS); [discriminate H|].
    congruence.
  - intros Hs. apply py_str_succeeds in Hs as [t Ht]. congruence.
Qed.

Lemma translate_info_sound (i : info) (r : str) :
  translate_info i = Returns r -> translation i r.
Proof.
  destruct i as [d|]; unfold translate_info;
    [|intros [= <-]; apply tr_absent].
  destruct (bool_decide (d = ∅)) eqn:He.
  { apply bool_decide_eq_true in He. subst d. intros [= <-]. apply tr_empty. }
  apply bool_decide_eq_false in He.
  destruct (match d !! "error"%string with
            | Some x => truthy x | None => false end) eqn:Herr.
  - assert (Hc : carries_error d (dict_get d "error")).
    { unfold carries_error, dict_get.
      destruct (d !! "error"%string) as [x|]; [|discriminate].
      split; [reflexivity | exact Herr]. }
    destruct (py_str (dict_get d "error")) as [text|e] eqn:Hp; [|discriminate].
    destruct (contains text (lit "not on Telegram")) eqn:H1.
    { intros [= <-]. eapply tr_not_on_telegram; [exact He | exact Hc | exact Hp |].
      apply contains_substring, H1. }
    apply contains_not_substring in H1.
    destruct (contains text (lit "multiple Telegram accounts")) eqn:H2.
    { intros [= <-]. eapply tr_multiple; [exact He | exact Hc | exact Hp | exact H1 |].
      apply contains_substring, H2. }
    apply contains_not_substring in H2.
    intros [= <-]. eapply tr_raw_error; eassumption.
  - pose proof (proj2 (no_error_test d) Herr) as Hn. clear Herr. cbv zeta.
    destruct (truthy (dict_get d "username")) eqn:Hu.
    { destruct (py_str (dict_get d "username")) as [text|e] eqn:Hp;
        [|discriminate].
      intros [= <-]. eapply tr_username; [exact He | exact Hn | | exact Hp].
      unfold carries_username, dict_get in *.
      destruct (d !! "username"%string) as [x|]; [|discriminate].
      split; [reflexivity | exact Hu]. }
    pose proof (proj2 (no_username_test d) Hu) as Hn'. clear Hu.
    destruct (truthy (dict_get d "id")) eqn:Hid; intros [= <-].
    { apply tr_no_username; try assumption. apply carries_id_test, Hid. }
    apply tr_undetermined; try assumption.
    rewrite carries_id_test, Hid. discriminate.
Qed.

Lemma translate_info_complete (i : info) (r : str) :
  translation i r -> translate_info i = Returns r.
Proof.
  intros H. destruct H as
    [ | | d v text He Hc Hp H1 | d v text He Hc Hp H1 H2
      | d v text He Hc Hp H1 H2
      | d u text He Hn Hu Hp | d He Hn Hu Hid | d He Hn Hu Hid ];
    [ reflexivity | unfold translate_info; rewrite bool_decide_eq_true_2; reflexivity
    | unfold translate_info; rewrite (bool_decide_eq_false_2 _ He) .. ].
  - apply carries_error_test in Hc as [-> ->]. rewrite Hp.
    apply contains_substring in H1. rewrite H1. reflexivity.
  - apply carries_error_test in Hc as [-> ->]. rewrite Hp.
    apply contains_not_substring in H1. apply contains_substring in H2.
    rewrite H1, H2. reflexivity.
  - apply carries_error_test in Hc as [-> ->]. rewrite Hp.
    apply contains_not_substring in H1, H2. rewrite H1, H2. reflexivity.
  - apply (proj1 (no_error_test d)) in Hn. rewrite Hn.
    destruct (carries_username_test d u Hu) as [Ht Hg]. cbv zeta.
    rewrite Ht, Hg, Hp. reflexivity.
  - apply (proj1 (no_error_test d)) in Hn. apply (proj1 (no_username_test d)) in Hu.
    apply (proj1 (carries_id_test d)) in Hid. rewrite Hn, Hu, Hid. reflexivity.
  - apply (proj1 (no_error_test d)) in Hn. apply (proj1 (no_username_test d)) in Hu.
    rewrite carries_id_test in Hid. apply not_true_is_false in Hid.
    rewrite Hn, Hu, Hid. reflexivity.
Qed.

(** The translator raises only where [str] of the field it is about to
    show raises: on an [int] beyond the limit. *)
Lemma translate_info_raises (i : info) (e : exn) :
  translate_info i = Raises e ->
  e = ValueError MSG_INT_LIMIT
  ∧ ∃ d v, i = Some d
           ∧ (d !! "error"%string = Some v ∨ d !! "username"%string = Some v)
           ∧ ¬ str_succeeds v.
Proof.
  destruct i as [d|]; unfold translate_info; [|discriminate].
  destruct (bool_decide (d = ∅)); [discriminate|].
  destruct (match d !! "error"%string with
            | Some x => truthy x | None => false end) eqn:Herr.
  - destruct (d !! "error"%string) as [v|] eqn:Hl; [|discriminate Herr].
    assert (Hg : dict_get d "error" = v)
      by (unfold dict_get; rewrite Hl; reflexivity).
    rewrite Hg. destruct (py_str v) as [text|e'] eqn:Hp.
    + repeat match goal with
             | |- context [if ?c then _ else _] => destruct c
             end; discriminate.
    + intros [= <-]. apply py_str_raises in Hp as [-> Hv].
      split; [reflexivity|]. exists d, v.
      repeat split; [left; exact Hl | exact Hv].
  - cbv zeta. destruct (d !! "username"%string) as [u|] eqn:Hl.
    + assert (Hg : dict_get d "username" = u)
        by (unfold dict_get; rewrite Hl; reflexivity).
      rewrite Hg. destruct (truthy u).
      * destruct (py_str u) as [text|e'] eqn:Hp; [discriminate|].
        intros [= <-]. apply py_str_raises in Hp as [-> Hv].
        split; [reflexivity|]. exists d, u.
        repeat split; [right; exact Hl | exact Hv].
      * destruct (truthy (dict_get d "id")); discriminate.
    + assert (Hg : dict_get d "username" = VNone)
        by (unfold dict_get; rewrite Hl; reflexivity).
      rewrite Hg. cbn [truthy].
      destruct (truthy (dict_get d "id")); discriminate.
Qed.

Lemma translate_info_total (i : info) :
  (∀ d v, i = Some d ->
          d !! "error"%string = Some v ∨ d !! "username"%string = Some v ->
          str_succeeds v) ->
  ∃ r, translate_info i = Returns r.
Proof.
  intros H. destruct (translate_info i) as [r|e] eqn:Ht.
  - exists r. reflexivity.
  - apply translate_info_raises in Ht as (_ & d & v & -> & Hl & Hv).
    exfalso. apply Hv. eapply H; [reflexivity | exact Hl].
Qed.

Example translate_id_only :
  translate_info (Some {[ "id"%string := VInt 123 ]}) = Returns MSG_NO_USERNAME.
Proof. vm_compute. reflexivity. Qed.

Example translate_not_on_telegram :
  translate_info
    (Some {[ "error"%string :=
               VStr (lit "No response, the phone number is not on Telegram or has blocked contact adding.") ]})
  = Returns MSG_NO_USER.
Proof. vm_compute. reflexivity. Qed.

Example translate_multiple :
  translate_info
    (Some {[ "error"%string :=
               VStr (lit "This phone number matched multiple Telegram accounts, which is unexpected.") ]})
  = Returns MSG_MULTIPLE.
Proof. vm_compute. reflexivity. Qed.

Example translate_raw_error :
  translate_info (Some {[ "error"%string := VStr (lit "Unexpected error: timeout.") ]})
  = Returns (lit "Unexpected error: timeout.").
Proof. vm_compute. reflexivity. Qed.

Example translate_empty : translate_info (Some ∅) = Returns MSG_UNKNOWN.
Proof. vm_compute. reflexivity. Qed.

Example translate_other_keys_only :
  translate_info (Some {[ "phone"%string := VStr (lit "+1234567") ]})
  = Returns MSG_UNDETERMINED.
Proof. vm_compute. reflexivity. Qed.

(** An [int] of 4301 digits as username: the f-string of line 82 raises. *)
Example translate_huge_username :
  translate_info (Some {[ "username"%string := VInt (10 ^ 4300) ]})
  = Raises (ValueError MSG_INT_LIMIT).
Proof. vm_compute. reflexivity. Qed.

Example translate_int_username :
  translate_info (Some {[ "username"%string := VInt 42 ]})
  = Returns (lit "@42").
Proof. vm_compute. reflexivity. Qed.

(** C1. The translation step returns the string [r] exactly when the
    priority list gives [r], so it returns at most one string and that one
    is: the unknown-error string for an absent or empty record; for a
    record with a non-empty error field the "no such user" message when
    the error text contains "not on Telegram", else the "multiple
    accounts" message when it contains "multiple Telegram accounts", else
    the error text itself; else [@] and the username when the record
    carries one; else the "no username" message when it carries an
    identifier; else the "could not determine" message. For every record
    whose [error] and [username] are what the upstream contract gives
    (strings or [None]; more generally anything but an [int] of more than
    4300 digits) it does return a string; [str] of such an [int] raises, and
    that [ValueError] is the only way the step fails. The record
    [{"username": "alice"}] gives ["@alice"]. *)
Theorem translate_info_priority :
  (∀ (i : info) (r : str), translation i r <-> translate_info i = Returns r)
  ∧ (∀ i : info,
      (∀ d v, i = Some d ->
              d !! "error"%string = Some v ∨ d !! "username"%string = Some v ->
              str_succeeds v) ->
      ∃ r, translate_info i = Returns r ∧ translation i r)
  ∧ (∀ (i : info) (e : exn),
      translate_info i = Raises e -> e = ValueError MSG_INT_LIMIT)
  ∧ translate_info (Some {[ "username"%string := VStr (lit "alice") ]})
    = Returns (lit "@alice").
Proof.
  split.
  { intros i r. split;
      [apply translate_info_complete | apply translate_info_sound]. }
  split.
  { intros i H. destruct (translate_info_total i H) as [r Hr].
    exists r. split; [exact Hr | apply translate_info_sound, Hr]. }
  split.
  { intros i e H. apply translate_info_raises in H as [He _]. exact He. }
  vm_compute. reflexivity.
Qed.

Lemma translate_info_priority_witness :
  ∃ r, translate_info (Some {[ "username"%string := VStr (lit "alice") ]})
       = Returns r
       ∧ translation (Some {[ "username"%string := VStr (lit "alice") ]}) r.
Proof.
  apply (proj1 (proj2 translate_info_priority)).
  intros d v [= <-] [H|H]; vm_compute in H.
  - discriminate H.
  - injection H as <-. exact I.
Defined.

(** ** The pipeline *)

Lemma get_or_create_client_unfold env w :
  _get_or_create_client env w =
  match _client w with
  | Some h => (Returns h, w)
  | None =>
    match login env (trace w) with
    | Returns h =>
      (Returns h,
       {| _client := Some h; trace := trace w ++ [EvLogin (Returns h)] |})
    | Raises e => (Raises e, record (EvLogin (Raises e)) w)
    end
  end.
Proof.
  unfold _get_or_create_client, bind, read_client, await_login, write_client,
    ret. destruct (_client w), (login env (trace w)); reflexivity.
Qed.

Lemma build_result_string_unfold env phone w :
  _build_result_string env phone w =
  match _normalize_phone phone with
  | Raises e => (Raises e, w)
  | Returns n =>
    match _get_or_create_client env w with
    | (Raises e, w1) => (Raises e, w1)
    | (Returns c, w1) =>
      match get_user_info_by_phone env (trace w1) c n with
      | Returns i =>
        (translate_info i, record (EvLookup c n (Returns i)) w1)
      | Raises e => (Raises e, record (EvLookup c n (Raises e)) w1)
      end
    end
  end.
Proof.
  unfold _build_result_string, bind, of_outcome, await_lookup, ret.
  destruct (_normalize_phone phone) as [n|e]; [|reflexivity].
  destruct (_get_or_create_client env w) as [[c|e] w1]; [|reflexivity].
  destruct (get_user_info_by_phone env (trace w1) c n) as [i|e];
    [|reflexivity].
  destruct (translate_info i); reflexivity.
Qed.

(** C4. When the input cannot be normalised to [+] and 5 to 20 digits,
    [_build_result_string] raises the format error and the world is what it
    was: no login, no lookup, no other event, and [_client] untouched. *)
Theorem build_result_string_rejects_before_io
    (env : Env) (phone : str) (w : world) :
  ¬ phone_shape (ensure_plus (strip_whitespace phone)) ->
  ∃ text, _build_result_string env phone w = (Raises (ValueError text), w)
          ∧ text ∈ format_error_messages.
Proof.
  intros H. destruct (normalize_phone_rejects phone H) as (text & Hn & Ht).
  exists text. split; [|exact Ht].
  rewrite build_result_string_unfold, Hn. reflexivity.
Qed.

Lemma not_phone_shape_example :
  ¬ phone_shape (ensure_plus (strip_whitespace (lit "12 ab"))).
Proof.
  intros H. apply fullmatch_plus_digits_shape in H. vm_compute in H.
  discriminate H.
Qed.

Lemma build_result_string_rejects_before_io_witness :
  ∃ text, _build_result_string env_alice (lit "12 ab") initial
          = (Raises (ValueError text), initial)
          ∧ text ∈ format_error_messages.
Proof.
  apply (build_result_string_rejects_before_io env_alice (lit "12 ab") initial).
  exact not_phone_shape_example.
Defined.

(** ** The handlers *)

Lemma check_phone_value_error env phone w text w' :
  _build_result_string env phone w = (Raises (ValueError text), w') ->
  check_phone env phone w = (Returns (result_dict text), w').
Proof. intros H. unfold check_phone. rewrite H. reflexivity. Qed.

Lemma check_phone_returns env phone w result w' :
  _build_result_string env phone w = (Returns result, w') ->
  check_phone env phone w = (Returns (result_dict result), w').
Proof. intros H. unfold check_phone. rewrite H. reflexivity. Qed.

(** A normalisation failure is answered inline, with status 200, and
    nothing else happens. *)
Lemma check_phone_format_error env phone w :
  ¬ phone_shape (ensure_plus (strip_whitespace phone)) ->
  ∃ text, check_phone env phone w = (Returns (result_dict text), w)
          ∧ text ∈ format_error_messages
          ∧ http_response (fst (check_phone env phone w))
            = Some {| status := 200; body := result_dict text |}.
Proof.
  intros H. destruct (normalize_phone_rejects phone H) as (text & Hn & Ht).
  assert (Hb : _build_result_string env phone w = (Raises (ValueError text), w)).
  { rewrite build_result_string_unfold, Hn. reflexivity. }
  exists text. rewrite (check_phone_value_error _ _ _ _ _ Hb).
  repeat split; assumption.
Qed.

(** An exception that is neither a [ValueError] nor outside [Exception] is
    logged and answered with status 500 and the fixed text. *)
Lemma check_phone_other_error env phone w e w' :
  _build_result_string env phone w = (Raises e, w') ->
  (∃ t, e = OtherError t) ∨ (∃ c t, e = HTTPException c t) ->
  check_phone env phone w
  = (Raises (HTTPException 500 MSG_INTERNAL), record (EvLog phone e) w')
  ∧ http_response (fst (check_phone env phone w))
    = Some {| status := 500;
              body := {[ "detail"%string := VStr MSG_INTERNAL ]} |}.
Proof.
  intros H He. unfold check_phone. rewrite H.
  destruct He as [[t ->]|(c & t & ->)]; split; reflexivity.
Qed.

Example check_phone_alice :
  check_phone env_alice (lit "+1 234 567") initial
  = (Returns (result_dict (lit "@alice")),
     {| _client := Some 1%nat;
        trace := [ EvLogin (Returns 1%nat);
                   EvLookup 1%nat (lit "+1234567")
                     (Returns (Some {[ "username"%string := VStr (lit "alice") ]})) ] |}).
Proof. vm_compute. reflexivity. Qed.

(** C8. The empty string is refused on a branch of its own, with the "empty
    phone number" text, which is not the text of the format check (the
    check itself would have refused the empty string too, with the other
    text); the handler answers 200 with that text as result, and nothing
    else happens. *)
Theorem empty_phone_dedicated_message :
  _normalize_phone (lit "") = Raises (ValueError MSG_EMPTY_PHONE)
  ∧ MSG_EMPTY_PHONE ≠ MSG_BAD_FORMAT
  ∧ fullmatch_plus_digits (ensure_plus (strip_whitespace (lit ""))) = false
  ∧ ∀ (env : Env) (w : world),
      check_phone env (lit "") w = (Returns (result_dict MSG_EMPTY_PHONE), w)
      ∧ http_response (fst (check_phone env (lit "") w))
        = Some {| status := 200; body := result_dict MSG_EMPTY_PHONE |}.
Proof.
  split; [reflexivity|]. split; [discriminate|]. split; [reflexivity|].
  intros env w.
  assert (H : check_phone env (lit "") w
              = (Returns (result_dict MSG_EMPTY_PHONE), w)).
  { apply check_phone_value_error. rewrite build_result_string_unfold.
    reflexivity. }
  rewrite H. split; reflexivity.
Qed.

(** C10. Whatever raised it, a [ValueError] coming out of the pipeline is
    answered with status 200 and its text as result: also when it was
    raised by [login] or by the lookup. *)
Theorem check_phone_any_value_error_inline :
  (∀ env phone w text w',
      _build_result_string env phone w = (Raises (ValueError text), w') ->
      check_phone env phone w = (Returns (result_dict text), w')
      ∧ http_response (fst (check_phone env phone w))
        = Some {| status := 200; body := result_dict text |})
  ∧ (∀ env phone w n text,
      _normalize_phone phone = Returns n ->
      _client w = None ->
      login env (trace w) = Raises (ValueError text) ->
      http_response (fst (check_phone env phone w))
      = Some {| status := 200; body := result_dict text |})
  ∧ (∀ env phone w n c w1 text,
      _normalize_phone phone = Returns n ->
      _get_or_create_client env w = (Returns c, w1) ->
      get_user_info_by_phone env (trace w1) c n = Raises (ValueError text) ->
      http_response (fst (check_phone env phone w))
      = Some {| status := 200; body := result_dict text |}).
Proof.
  assert (G : ∀ env phone w text w',
      _build_result_string env phone w = (Raises (ValueError text), w') ->
      check_phone env phone w = (Returns (result_dict text), w')
      ∧ http_response (fst (check_phone env phone w))
        = Some {| status := 200; body := result_dict text |}).
  { intros env phone w text w' H.
    rewrite (check_phone_value_error _ _ _ _ _ H). split; reflexivity. }
  split; [exact G|]. split.
  - intros env phone w n text Hn Hc Hl.
    eapply G. rewrite build_result_string_unfold, Hn,
      get_or_create_client_unfold, Hc, Hl. reflexivity.
  - intros env phone w n c w1 text Hn Hc Hl.
    eapply G. rewrite build_result_string_unfold, Hn, Hc, Hl. reflexivity.
Qed.

Lemma check_phone_any_value_error_inline_witness :
  http_response (fst (check_phone env_lookup_fails (lit "+1234567") initial))
  = Some {| status := 200;
            body := result_dict (lit "Cannot find any entity") |}.
Proof.
  eapply (proj2 (proj2 check_phone_any_value_error_inline)
            env_lookup_fails (lit "+1234567") initial (lit "+1234567") 1%nat).
  - reflexivity.
  - reflexivity.
  - reflexivity.
Defined.

(** C3, at the input where the code departs from it: no API id is
    configured, so [login] raises a [ValueError]; the request for a
    well-formed number is answered with status 200 and the text of that
    internal error, and nothing is logged. *)
Theorem check_phone_login_value_error_leaks :
  check_phone env_no_api_id (lit "+1234567") initial
  = (Returns (result_dict MSG_TELETHON_API_ID),
     {| _client := None;
        trace := [EvLogin (Raises (ValueError MSG_TELETHON_API_ID))] |})
  ∧ http_response (fst (check_phone env_no_api_id (lit "+1234567") initial))
    = Some {| status := 200; body := result_dict MSG_TELETHON_API_ID |}
  ∧ MSG_TELETHON_API_ID ∉ format_error_messages.
Proof.
  assert (H : check_phone env_no_api_id (lit "+1234567") initial
              = (Returns (result_dict MSG_TELETHON_API_ID),
                 {| _client := None;
                    trace := [EvLogin (Raises (ValueError MSG_TELETHON_API_ID))] |})).
  { apply check_phone_value_error. rewrite build_result_string_unfold.
    reflexivity. }
  rewrite H. split; [reflexivity|]. split; [reflexivity|].
  unfold format_error_messages. intros Hin.
  apply list_elem_of_In in Hin. simpl in Hin.
  destruct Hin as [Hin|[Hin|[]]]; discriminate Hin.
Qed.

(** C7. The POST handler is the GET handler applied to the [phone] field
    of the body; two phone strings with the same normalisation get the same
    answer from the same world, so POST with ["+1 234 567"] and GET with
    ["+1234567"] answer alike. *)
Theorem check_phone_post_same_pipeline :
  (∀ env body w, check_phone_post env body w = check_phone env (phone body) w)
  ∧ (∀ env w p1 p2,
      _normalize_phone p1 = _normalize_phone p2 ->
      fst (check_phone_post env {| phone := p1 |} w)
      = fst (check_phone env p2 w))
  ∧ (∀ env w,
      fst (check_phone_post env {| phone := lit "+1 234 567" |} w)
      = fst (check_phone env (lit "+1234567") w)).
Proof.
  assert (G : ∀ env w p1 p2,
      _normalize_phone p1 = _normalize_phone p2 ->
      fst (check_phone_post env {| phone := p1 |} w)
      = fst (check_phone env p2 w)).
  { intros env w p1 p2 H. unfold check_phone_post. cbn [phone].
    assert (Hb : _build_result_string env p1 w = _build_result_string env p2 w).
    { rewrite !build_result_string_unfold, H. reflexivity. }
    unfold check_phone. rewrite Hb.
    destruct (_build_result_string env p2 w) as [[r|[t|t|c t|t]] w'];
      reflexivity. }
  split; [reflexivity|]. split; [exact G|].
  intros env w. apply G. reflexivity.
Qed.

Lemma check_phone_post_same_pipeline_witness :
  fst (check_phone_post env_alice {| phone := lit " 1 234 567" |} initial)
  = fst (check_phone env_alice (lit "+1234567") initial).
Proof.
  apply (proj1 (proj2 check_phone_post_same_pipeline)). reflexivity.
Defined.

(** ** The shared connection handle *)

Lemma get_or_create_client_creates env w h :
  _client w = None -> login env (trace w) = Returns h ->
  _get_or_create_client env w
  = (Returns h,
     {| _client := Some h; trace := trace w ++ [EvLogin (Returns h)] |}).
Proof.
  intros Hc Hl. rewrite get_or_create_client_unfold, Hc, Hl. reflexivity.
Qed.

(** A failed login propagates, the handle stays absent, and nothing is
    retried within the call. *)
Lemma get_or_create_client_login_fails env w e :
  _client w = None -> login env (trace w) = Raises e ->
  _get_or_create_client env w
  = (Raises e,
     {| _client := None; trace := trace w ++ [EvLogin (Raises e)] |}).
Proof.
  intros Hc Hl. rewrite get_or_create_client_unfold, Hc, Hl.
  unfold record. rewrite Hc. reflexivity.
Qed.

Lemma get_or_create_client_reuses env w h :
  _client w = Some h -> _get_or_create_client env w = (Returns h, w).
Proof. intros Hc. rewrite get_or_create_client_unfold, Hc. reflexivity. Qed.

Lemma repeat_get_client_reuses env w h n :
  _client w = Some h ->
  repeat_call (_get_or_create_client env) n w = (repeat (Returns h) n, w).
Proof.
  intros Hc. induction n as [|n IH]; [reflexivity|].
  cbn [repeat_call repeat].
  rewrite (get_or_create_client_reuses env w h Hc), IH. reflexivity.
Qed.

Lemma live_app tr1 tr2 : live (tr1 ++ tr2) = live tr1 + live tr2.
Proof.
  unfold live. induction tr1 as [|e tr1 IH]; simpl; [reflexivity|].
  rewrite IH. lia.
Qed.

Lemma live_snoc tr e : live (tr ++ [e]) = live tr + handle_delta e.
Proof. rewrite live_app. unfold live. simpl. lia. Qed.

Lemma prefix_snoc_cases (p tr : list event) e :
  p `prefix_of` tr ++ [e] -> p `prefix_of` tr ∨ p = tr ++ [e].
Proof.
  intros [k Hk]. destruct k as [|x k _] using rev_ind.
  - right. rewrite app_nil_r in Hk. congruence.
  - left. rewrite app_assoc in Hk. apply app_inj_tail in Hk as [-> _].
    exists k. reflexivity.
Qed.

Lemma at_most_one_nil : at_most_one [].
Proof.
  intros p Hp. apply prefix_nil_inv in Hp. subst p. unfold live. simpl. lia.
Qed.

Lemma at_most_one_snoc tr e :
  at_most_one tr -> 0 ≤ live tr + handle_delta e ≤ 1 ->
  at_most_one (tr ++ [e]).
Proof.
  intros Htr He p Hp. apply prefix_snoc_cases in Hp as [Hp| ->].
  - apply Htr, Hp.
  - rewrite live_snoc. exact He.
Qed.

Lemma consistent_initial : consistent initial.
Proof. split; [reflexivity | apply at_most_one_nil]. Qed.

Lemma consistent_bounds w : consistent w -> 0 ≤ live (trace w) ≤ 1.
Proof. intros [Hl _]. rewrite Hl. destruct (_client w); lia. Qed.

Lemma consistent_record w e :
  consistent w -> handle_delta e = 0 -> consistent (record e w).
Proof.
  intros Hw He. pose proof (consistent_bounds w Hw) as Hb.
  destruct Hw as [Hl Ha]. split; cbn [record trace _client].
  - rewrite live_snoc, He, Hl. lia.
  - apply at_most_one_snoc; [exact Ha | lia].
Qed.

Lemma consistent_login w h :
  consistent w -> _client w = None ->
  consistent
    {| _client := Some h; trace := trace w ++ [EvLogin (Returns h)] |}.
Proof.
  intros [Hl Ha] Hc. rewrite Hc in Hl. split; cbn [trace _client].
  - rewrite live_snoc, Hl. reflexivity.
  - apply at_most_one_snoc; [exact Ha|]. rewrite Hl. simpl. lia.
Qed.

Lemma consistent_disconnect w h :
  consistent w -> _client w = Some h ->
  consistent
    {| _client := None; trace := trace w ++ [EvDisconnect h (Returns tt)] |}.
Proof.
  intros [Hl Ha] Hc. rewrite Hc in Hl. split; cbn [trace _client].
  - rewrite live_snoc, Hl. reflexivity.
  - apply at_most_one_snoc; [exact Ha|]. rewrite Hl. simpl. lia.
Qed.

Lemma consistent_get_or_create_client env w :
  consistent w -> consistent (snd (_get_or_create_client env w)).
Proof.
  intros Hw. rewrite get_or_create_client_unfold.
  destruct (_client w) as [h|] eqn:Hc; [exact Hw|].
  destruct (login env (trace w)) as [h|e]; cbn [snd].
  - apply consistent_login; assumption.
  - apply consistent_record; [exact Hw | reflexivity].
Qed.

Lemma consistent_build_result_string env phone w :
  consistent w -> consistent (snd (_build_result_string env phone w)).
Proof.
  intros Hw. rewrite build_result_string_unfold.
  destruct (_normalize_phone phone) as [n|e]; [|exact Hw].
  pose proof (consistent_get_or_create_client env w Hw) as H1.
  destruct (_get_or_create_client env w) as [[c|e] w1]; cbn [snd] in *;
    [|exact H1].
  destruct (get_user_info_by_phone env (trace w1) c n); cbn [snd];
    apply consistent_record; solve [exact H1 | reflexivity].
Qed.

Lemma consistent_check_phone env phone w :
  consistent w -> consistent (snd (check_phone env phone w)).
Proof.
  intros Hw. pose proof (consistent_build_result_string env phone w Hw) as H1.
  unfold check_phone.
  destruct (_build_result_string env phone w) as [[r|[t|t|c t|t]] w'];
    cbn [snd] in *; try exact H1;
    unfold bind, logger_exception, raise; cbn [snd];
    apply consistent_record; solve [exact H1 | reflexivity].
Qed.

Lemma shutdown_event_unfold env w :
  shutdown_event env w =
  match _client w with
  | None => (Returns tt, w)
  | Some h =>
    match disconnect env (trace w) h with
    | Returns u =>
      (Returns tt,
       {| _client := None;
          trace := trace w ++ [EvDisconnect h (Returns u)] |})
    | Raises e => (Raises e, record (EvDisconnect h (Raises e)) w)
    end
  end.
Proof.
  unfold shutdown_event, bind, read_client, await_disconnect, write_client,
    ret. destruct (_client w); [|reflexivity].
  destruct (disconnect env (trace w) h); reflexivity.
Qed.

Lemma consistent_shutdown_event env w :
  consistent w -> consistent (snd (shutdown_event env w)).
Proof.
  intros Hw. rewrite shutdown_event_unfold.
  destruct (_client w) as [h|] eqn:Hc; [|exact Hw].
  destruct (disconnect env (trace w) h) as [[]|e]; cbn [snd].
  - apply consistent_disconnect; assumption.
  - apply consistent_record; [exact Hw | reflexivity].
Qed.

Lemma consistent_run env rqs w :
  consistent w -> consistent (run env rqs w).
Proof.
  unfold run. revert w. induction rqs as [|rq rqs IH]; intros w Hw;
    [exact Hw|].
  cbn [fold_left]. apply IH. destruct rq; cbn [serve].
  - apply consistent_check_phone, Hw.
  - apply consistent_check_phone, Hw.
  - apply consistent_get_or_create_client, Hw.
  - apply consistent_shutdown_event, Hw.
Qed.

(** The stepwise provider is the provider: a call that runs its two steps
    with no other call in between does what [_get_or_create_client] does. *)
Lemma interleave_alone env w :
  interleave env [0; 0]%nat [NotStarted] w
  = ([Finished (fst (_get_or_create_client env w))],
     snd (_get_or_create_client env w)).
Proof.
  rewrite get_or_create_client_unfold.
  cbn [interleave lookup list_lookup provider_step].
  destruct (_client w) as [h|] eqn:Hc; cbn [interleave lookup list_lookup
    insert list_insert provider_step]; [reflexivity|].
  unfold provider_resume, bind, await_login, write_client, ret, record.
  destruct (login env (trace w)); reflexivity.
Qed.

Example interleave_one_after_the_other :
  interleave env_fresh [0; 0; 1; 1]%nat [NotStarted; NotStarted] initial
  = ([Finished (Returns 1%nat); Finished (Returns 1%nat)],
     {| _client := Some 1%nat; trace := [EvLogin (Returns 1%nat)] |}).
Proof. vm_compute. reflexivity. Qed.

(** C5 as the claim states it fails when two calls overlap. Both calls
    test [_client] (line 45) before either [login] has answered (line 47):
    both log in, the second call gets another handle than the first, and two
    handles exist although [_client] holds one. It also fails, for calls
    one after the other, when the first [login] raises: the second call
    invokes [login] again. *)
Lemma get_or_create_client_overlapping_calls :
  interleave env_fresh [0; 1; 0; 1]%nat [NotStarted; NotStarted] initial
  = ([Finished (Returns 1%nat); Finished (Returns 2%nat)],
     {| _client := Some 2%nat;
        trace := [EvLogin (Returns 1%nat); EvLogin (Returns 2%nat)] |})
  ∧ count is_login [EvLogin (Returns 1%nat); EvLogin (Returns 2%nat)] = 2%nat
  ∧ live [EvLogin (Returns 1%nat); EvLogin (Returns 2%nat)] = 2
  ∧ ¬ at_most_one [EvLogin (Returns 1%nat); EvLogin (Returns 2%nat)]
  ∧ repeat_call (_get_or_create_client env_flaky) 2 initial
    = ([Raises (OtherError (lit "connection refused")); Returns 2%nat],
       {| _client := Some 2%nat;
          trace := [ EvLogin (Raises (OtherError (lit "connection refused")));
                     EvLogin (Returns 2%nat) ] |}).
Proof.
  split; [vm_compute; reflexivity|]. split; [reflexivity|].
  split; [reflexivity|]. split; [|vm_compute; reflexivity].
  intros H.
  specialize (H [EvLogin (Returns 1%nat); EvLogin (Returns 2%nat)]).
  assert (Hp : [EvLogin (Returns 1%nat); EvLogin (Returns 2%nat)]
               `prefix_of` [EvLogin (Returns 1%nat); EvLogin (Returns 2%nat)])
    by (exists []; reflexivity).
  apply H in Hp. vm_compute in Hp. destruct Hp as [_ Hp]. apply Hp. reflexivity.
Qed.

(** C5, amended: for calls that do not overlap. Called while the handle is
    absent, [_get_or_create_client] calls [login] once and, when [login]
    returns a handle, keeps and returns it; called while a handle is present it
    returns that handle and does nothing else, so any number of calls
    after the creating one return the same handle with no further login.
    Through any sequence of requests, provider calls and shutdowns, each
    finished before the next starts, from the initial state, at most one
    handle exists at every point, and it is the one in [_client]. *)
Theorem get_or_create_client_singleton :
  (∀ env w h,
      _client w = None -> login env (trace w) = Returns h ->
      _get_or_create_client env w
      = (Returns h,
         {| _client := Some h; trace := trace w ++ [EvLogin (Returns h)] |}))
  ∧ (∀ env w h,
      _client w = Some h -> _get_or_create_client env w = (Returns h, w))
  ∧ (∀ env w h n,
      _client w = None -> login env (trace w) = Returns h ->
      repeat_call (_get_or_create_client env) (S n) w
      = (repeat (Returns h) (S n),
         {| _client := Some h; trace := trace w ++ [EvLogin (Returns h)] |}))
  ∧ (∀ env rqs, consistent (run env rqs initial)).
Proof.
  split; [exact get_or_create_client_creates|].
  split; [exact get_or_create_client_reuses|]. split.
  - intros env w h n Hc Hl. cbn [repeat_call repeat].
    rewrite (get_or_create_client_creates env w h Hc Hl).
    rewrite (repeat_get_client_reuses env
               {| _client := Some h;
                  trace := trace w ++ [EvLogin (Returns h)] |} h n eq_refl).
    reflexivity.
  - intros env rqs. apply consistent_run, consistent_initial.
Qed.

Lemma get_or_create_client_singleton_witness :
  repeat_call (_get_or_create_client env_alice) 3 initial
  = ([Returns 1%nat; Returns 1%nat; Returns 1%nat],
     {| _client := Some 1%nat; trace := [EvLogin (Returns 1%nat)] |}).
Proof.
  apply (proj1 (proj2 (proj2 get_or_create_client_singleton))
           env_alice initial 1%nat 2%nat).
  - reflexivity.
  - reflexivity.
Defined.

(** ** Shutdown *)

Lemma shutdown_event_without_client env w :
  _client w = None -> shutdown_event env w = (Returns tt, w).
Proof. intros Hc. rewrite shutdown_event_unfold, Hc. reflexivity. Qed.

(** When [disconnect] raises, line 96 is not reached: the exception
    propagates and the handle stays in [_client]. *)
Lemma shutdown_event_disconnect_raises env w h e :
  _client w = Some h -> disconnect env (trace w) h = Raises e ->
  shutdown_event env w
  = (Raises e,
     {| _client := Some h;
        trace := trace w ++ [EvDisconnect h (Raises e)] |}).
Proof.
  intros Hc Hd. rewrite shutdown_event_unfold, Hc, Hd.
  unfold record. rewrite Hc. reflexivity.
Qed.

Lemma repeat_shutdown_without_client env w n :
  _client w = None ->
  repeat_call (shutdown_event env) n w = (repeat (Returns tt) n, w).
Proof.
  intros Hc. induction n as [|n IH]; [reflexivity|].
  cbn [repeat_call repeat].
  rewrite (shutdown_event_without_client env w Hc), IH. reflexivity.
Qed.




(** * Further properties of the code *)

(** ** Phone normalisation: which inputs are accepted *)

Lemma plus_not_decimal : is_decimal 43 = false.
Proof. vm_compute. reflexivity. Qed.

Lemma strip_interspersed_same t s :
  interspersed t s -> strip_whitespace s = strip_whitespace t.
Proof.
  induction 1 as [|c t s _ IH|c t s Hc _ IH]; simpl.
  - reflexivity.
  - rewrite IH. reflexivity.
  - rewrite Hc. simpl. exact IH.
Qed.

Lemma interspersed_nonempty t s : interspersed t s -> t ≠ [] -> s ≠ [].
Proof. intros H Ht. destruct H; congruence. Qed.

Lemma normalize_phone_nonempty phone :
  phone ≠ [] ->
  _normalize_phone phone =
  if fullmatch_plus_digits (ensure_plus (strip_whitespace phone))
  then Returns (ensure_plus (strip_whitespace phone))
  else Raises (ValueError MSG_BAD_FORMAT).
Proof.
  intros H. rewrite normalize_phone_unfold.
  destruct phone; [congruence | reflexivity].
Qed.

(** X1. Whitespace in a non-empty input does not matter: putting
    whitespace characters anywhere into a non-empty string leaves the
    outcome of [_normalize_phone] (the returned number or the error) as it
    was. *)
Theorem normalize_phone_ignores_whitespace (t s : str) :
  interspersed t s -> t ≠ [] -> _normalize_phone s = _normalize_phone t.
Proof.
  intros Hi Ht.
  rewrite (normalize_phone_nonempty s (interspersed_nonempty t s Hi Ht)).
  rewrite (normalize_phone_nonempty t Ht).
  rewrite (strip_interspersed_same t s Hi). reflexivity.
Qed.

Lemma normalize_phone_ignores_whitespace_witness :
  _normalize_phone (lit "+1 234 567") = _normalize_phone (lit "+1234567").
Proof.
  apply normalize_phone_ignores_whitespace.
  - exact interspersed_example.
  - discriminate.
Defined.

Lemma strip_only_whitespace s :
  Forall (λ c, is_space c = true) s -> strip_whitespace s = [].
Proof.
  induction 1 as [|c s Hc _ IH]; simpl; [reflexivity|].
  rewrite Hc. simpl. exact IH.
Qed.

(** X2. A non-empty input made of whitespace only is refused with the
    format message, not with the "empty phone number" message: the
    emptiness test of line 30 looks at the input before it is stripped. *)
Theorem normalize_phone_blank_is_format_error (phone : str) :
  phone ≠ [] -> Forall (λ c, is_space c = true) phone ->
  _normalize_phone phone = Raises (ValueError MSG_BAD_FORMAT).
Proof.
  intros Hne Hws. rewrite (normalize_phone_nonempty phone Hne).
  rewrite (strip_only_whitespace phone Hws). reflexivity.
Qed.

Lemma normalize_phone_blank_is_format_error_witness :
  _normalize_phone [32; 9; 160] = Raises (ValueError MSG_BAD_FORMAT).
Proof.
  apply normalize_phone_blank_is_format_error.
  - discriminate.
  - repeat constructor.
Defined.

(** X3. The leading [+] is optional: when the first character of the input
    that is not whitespace is not a [+], writing a [+] in front of the
    input changes nothing in the outcome. *)
Theorem normalize_phone_plus_optional (phone : str) (c : Z) (rest : str) :
  strip_whitespace phone = c :: rest -> c ≠ 43 ->
  _normalize_phone (43 :: phone) = _normalize_phone phone.
Proof.
  intros Hs Hc.
  assert (Hne : phone ≠ []) by (intros ->; discriminate Hs).
  rewrite (normalize_phone_nonempty phone Hne).
  rewrite (normalize_phone_nonempty (43 :: phone)) by discriminate.
  assert (H1 : strip_whitespace (43 :: phone) = 43 :: strip_whitespace phone)
    by reflexivity.
  rewrite H1, Hs. cbn [ensure_plus].
  rewrite Z.eqb_refl. apply Z.eqb_neq in Hc. rewrite Hc. reflexivity.
Qed.

Lemma normalize_phone_plus_optional_witness :
  _normalize_phone (43 :: lit " 7999 1234567")
  = _normalize_phone (lit " 7999 1234567").
Proof.
  apply (normalize_phone_plus_optional (lit " 7999 1234567") 55
           (lit "9991234567")).
  - reflexivity.
  - discriminate.
Defined.

(** X4. The inputs [_normalize_phone] accepts are exactly those whose
    characters other than whitespace are 5 to 20 decimal digits, with or
    without one [+] in front of them; the number returned is [+] and those
    digits. Nothing else is accepted: no letter, no punctuation, no [+]
    after the first place. *)
Theorem normalize_phone_accepts_exactly (phone n : str) :
  _normalize_phone phone = Returns n <->
  ∃ ds, n = 43 :: ds ∧ (5 ≤ length ds ≤ 20)%nat
        ∧ Forall (λ c, is_decimal c = true) ds
        ∧ (strip_whitespace phone = ds ∨ strip_whitespace phone = 43 :: ds).
Proof.
  split.
  - intros H. apply normalize_phone_returns in H as [Hn (ds & Hds & Hlen & Hd)].
    exists ds. repeat split; try assumption; try lia.
    rewrite Hds in Hn. destruct (strip_whitespace phone) as [|c r].
    + cbn [ensure_plus] in Hn. inversion Hn; subst. simpl in Hlen. lia.
    + cbn [ensure_plus] in Hn. destruct (c =? 43) eqn:Hc.
      * right. congruence.
      * left. inversion Hn. reflexivity.
  - intros (ds & -> & Hlen & Hd & Hs).
    assert (Hshape : phone_shape (43 :: ds)).
    { exists ds. repeat split; try assumption; lia. }
    assert (He : ensure_plus (strip_whitespace phone) = 43 :: ds).
    { destruct Hs as [-> | ->]; [|reflexivity].
      destruct ds as [|c r]; [simpl in Hlen; lia|].
      inversion Hd; subst. cbn [ensure_plus].
      destruct (c =? 43) eqn:Hc; [|reflexivity].
      apply Z.eqb_eq in Hc. subst c. rewrite plus_not_decimal in H1.
      discriminate H1. }
    pose proof (normalize_phone_accepts phone) as Ha.
    rewrite He in Ha. exact (Ha Hshape).
Qed.

(** ** The result translator: what it looks at *)

Lemma translate_info_nonempty (d : dict) :
  d ≠ ∅ ->
  translate_info (Some d) =
  if match d !! "error"%string with Some v => truthy v | None => false end
  then
    match py_str (dict_get d "error") with
    | Raises e => Raises e
    | Returns error_text =>
      if contains error_text (lit "not on Telegram")
      then Returns MSG_NO_USER
      else if contains error_text (lit "multiple Telegram accounts")
      then Returns MSG_MULTIPLE
      else Returns error_text
    end
  else
    let username := dict_get d "username" in
    if truthy username
    then
      match py_str username with
      | Raises e => Raises e
      | Returns text => Returns (lit "@" ++ text)
      end
    else if truthy (dict_get d "id") then Returns MSG_NO_USERNAME
    else Returns MSG_UNDETERMINED.
Proof.
  intros H. unfold translate_info. rewrite (bool_decide_eq_false_2 _ H).
  reflexivity.
Qed.

(** X5. Of a non-empty record the translator reads the keys [error],
    [username] and [id] and nothing else: two non-empty records that agree
    on these three keys get the same string, whatever other keys they
    hold. *)
Theorem translate_info_reads_three_keys (d d' : dict) :
  d ≠ ∅ -> d' ≠ ∅ ->
  d !! "error"%string = d' !! "error"%string ->
  d !! "username"%string = d' !! "username"%string ->
  d !! "id"%string = d' !! "id"%string ->
  translate_info (Some d) = translate_info (Some d').
Proof.
  intros Hd Hd' He Hu Hi.
  rewrite (translate_info_nonempty d Hd), (translate_info_nonempty d' Hd').
  unfold dict_get. rewrite He, Hu, Hi. reflexivity.
Qed.

Lemma translate_info_reads_three_keys_witness :
  translate_info
    (Some (<[ "phone"%string := VStr (lit "+1234567") ]>
             {[ "id"%string := VInt 5 ]}))
  = translate_info (Some {[ "id"%string := VInt 5 ]}).
Proof.
  apply translate_info_reads_three_keys.
  - vm_compute. discriminate.
  - vm_compute. discriminate.
  - vm_compute. reflexivity.
  - vm_compute. reflexivity.
  - vm_compute. reflexivity.
Defined.

(** X6. A non-empty error field decides the answer alone: the record is
    translated like the record that holds only that error, so a username or
    an identifier beside the error is never shown. *)
Theorem translate_info_error_hides_user (d : dict) (v : pyval) :
  carries_error d v ->
  translate_info (Some d) = translate_info (Some {[ "error"%string := v ]}).
Proof.
  intros [Hl Ht].
  assert (Hd : d ≠ ∅).
  { intros ->. rewrite lookup_empty in Hl. discriminate Hl. }
  assert (Hs : ({[ "error"%string := v ]} : dict) ≠ ∅)
    by apply map_non_empty_singleton.
  rewrite (translate_info_nonempty d Hd), (translate_info_nonempty _ Hs).
  unfold dict_get. rewrite lookup_singleton_eq, Hl, Ht. reflexivity.
Qed.

Lemma translate_info_error_hides_user_witness :
  translate_info
    (Some (<[ "username"%string := VStr (lit "alice") ]>
             {[ "error"%string := VStr (lit "Unexpected error: timeout.") ]}))
  = translate_info
      (Some {[ "error"%string := VStr (lit "Unexpected error: timeout.") ]}).
Proof.
  apply translate_info_error_hides_user. split.
  - vm_compute. reflexivity.
  - reflexivity.
Defined.

(** ** One request: what it answers and what it calls *)

Lemma normalize_phone_raises phone e :
  _normalize_phone phone = Raises e -> ∃ t, e = ValueError t.
Proof.
  rewrite normalize_phone_unfold. destruct phone as [|c phone].
  - intros [= <-]. eexists. reflexivity.
  - destruct (fullmatch_plus_digits _); [discriminate|].
    intros [= <-]. eexists. reflexivity.
Qed.

Lemma count_app f evs1 evs2 :
  count f (evs1 ++ evs2) = (count f evs1 + count f evs2)%nat.
Proof. unfold count. rewrite List.filter_app, length_app. reflexivity. Qed.

(** Every path of [check_phone], by the outcome of each step. *)
Ltac pipeline_cases env phone w :=
  unfold check_phone;
  rewrite build_result_string_unfold, get_or_create_client_unfold;
  let Hn := fresh "Hn" in
  destruct (_normalize_phone phone) as [?n|?e] eqn:Hn;
  [ let Hc := fresh "Hc" in
    destruct (_client w) as [?h|] eqn:Hc;
    [ idtac
    | let Hl := fresh "Hl" in
      destruct (login env (trace w)) as [?h|[?t|?t|?c ?t|?t]] eqn:Hl ];
    try match goal with
        | |- context [get_user_info_by_phone ?a ?b ?c ?d] =>
          let Hq := fresh "Hq" in
          destruct (get_user_info_by_phone a b c d)
            as [?i|[?t|?t|?c ?t|?t]] eqn:Hq
        end;
    try match goal with
        | |- context [translate_info ?i] =>
          let Hti := fresh "Hti" in
          destruct (translate_info i) as [?s|?e] eqn:Hti;
          [ | apply translate_info_raises in Hti as [-> _] ]
        end
  | let Ht := fresh "Ht" in
    destruct (normalize_phone_raises _ _ Hn) as [?t Ht]; subst ];
  unfold bind, logger_exception, raise, record;
  cbn [fst snd trace _client].

Ltac new_events :=
  rewrite <- ?app_assoc; cbn [app];
  first [ eexists; split; [reflexivity|]
        | exists []; split; [symmetry; apply app_nil_r|] ].

(** X7. One request calls [login] at most once and the lookup at most once,
    and never [disconnect]: nothing is retried, and a request cannot end
    the shared connection. *)
Theorem check_phone_calls_at_most_once (env : Env) (phone : str) (w : world) :
  ∃ evs, trace (snd (check_phone env phone w)) = trace w ++ evs
         ∧ (count is_login evs ≤ 1)%nat
         ∧ (count is_lookup evs ≤ 1)%nat
         ∧ count is_disconnect evs = 0%nat.
Proof.
  pipeline_cases env phone w; new_events; vm_compute; repeat split; lia.
Qed.

(** X8. A request ends in one of three ways: it returns [{result: s}]; or
    it raises the 500 exception with the fixed text, and then the exception
    that caused it was logged, once, as the last thing the request did,
    with the phone as the caller sent it; or an exception outside
    [Exception] passes through. Apart from that one entry a request logs
    nothing, and no [ValueError] or other [Exception] leaves the handler. *)
Theorem check_phone_answers_and_logs (env : Env) (phone : str) (w : world) :
  ∃ evs, trace (snd (check_phone env phone w)) = trace w ++ evs
    ∧ ( ((∃ s, fst (check_phone env phone w) = Returns (result_dict s))
         ∧ count is_log evs = 0%nat)
      ∨ (fst (check_phone env phone w)
         = Raises (HTTPException 500 MSG_INTERNAL)
         ∧ ∃ evs' e, evs = evs' ++ [EvLog phone e]
                     ∧ count is_log evs' = 0%nat
                     ∧ reaches_except_exception e
                     ∧ fst (_build_result_string env phone w) = Raises e)
      ∨ ((∃ t, fst (check_phone env phone w) = Raises (NonException t))
         ∧ count is_log evs = 0%nat) ).
Proof.
  rewrite (build_result_string_unfold env phone w),
    (get_or_create_client_unfold env w).
  pipeline_cases env phone w; new_events;
    first
      [ left; split; [eexists; reflexivity | reflexivity]
      | right; right; split; [eexists; reflexivity | reflexivity]
      | right; left; split; [reflexivity|];
        match goal with
        | |- ∃ evs' e, [EvLog _ ?x] = _ ∧ _ => exists [], x
        | |- ∃ evs' e, [?a; EvLog _ ?x] = _ ∧ _ => exists [a], x
        | |- ∃ evs' e, [?a; ?b; EvLog _ ?x] = _ ∧ _ => exists [a; b], x
        end;
        split; [reflexivity|]; split; [reflexivity|];
        split; [|reflexivity];
        first [ left; eexists; reflexivity
              | right; eexists _, _; reflexivity ] ].
Qed.

(** X9. A request keeps the handle it finds: with a handle in [_client]
    it calls no [login], makes its lookup (if any) on that handle with the
    normalised phone, and leaves the same handle in [_client] whether the
    lookup returned or raised. *)
Theorem check_phone_keeps_handle
    (env : Env) (phone : str) (w : world) (h : handle) :
  _client w = Some h ->
  _client (snd (check_phone env phone w)) = Some h
  ∧ ∃ evs, trace (snd (check_phone env phone w)) = trace w ++ evs
           ∧ count is_login evs = 0%nat
           ∧ ∀ c p r, EvLookup c p r ∈ evs ->
                      c = h ∧ _normalize_phone phone = Returns p.
Proof.
  intros Hh.
  pipeline_cases env phone w; try congruence;
    (split; [congruence|]); new_events; (split; [reflexivity|]);
    intros c' p' r' Hin; apply list_elem_of_In in Hin; simpl in Hin;
    repeat match goal with
           | H : _ ∨ _ |- _ => destruct H
           | H : False |- _ => destruct H
           | H : EvLookup _ _ _ = EvLookup _ _ _ |- _ =>
             inversion H; subst; clear H
           | H : EvLog _ _ = EvLookup _ _ _ |- _ => discriminate H
           end;
    split; congruence.
Qed.

Lemma check_phone_keeps_handle_witness :
  _client (snd (check_phone env_timeout (lit "+1234567")
                  {| _client := Some 1%nat; trace := [EvLogin (Returns 1%nat)] |}))
  = Some 1%nat
  ∧ ∃ evs, trace (snd (check_phone env_timeout (lit "+1234567")
                         {| _client := Some 1%nat;
                            trace := [EvLogin (Returns 1%nat)] |}))
           = [EvLogin (Returns 1%nat)] ++ evs
           ∧ count is_login evs = 0%nat
           ∧ ∀ c p r, EvLookup c p r ∈ evs ->
                      c = 1%nat
                      ∧ _normalize_phone (lit "+1234567") = Returns p.
Proof.
  apply (check_phone_keeps_handle env_timeout (lit "+1234567")
           {| _client := Some 1%nat; trace := [EvLogin (Returns 1%nat)] |}
           1%nat).
  reflexivity.
Defined.

(** X10. A failed login is not remembered. When no handle exists and
    [login] raises, the request makes no lookup and leaves [_client]
    empty; the next request with a well-formed number calls [login] again,
    and if that login succeeds its handle is stored. *)
Theorem check_phone_retries_login_next_time
    (env : Env) (phone n : str) (w : world) (e : exn) :
  _normalize_phone phone = Returns n ->
  _client w = None ->
  login env (trace w) = Raises e ->
  let w' := snd (check_phone env phone w) in
  _client w' = None
  ∧ (∃ evs, trace w' = trace w ++ EvLogin (Raises e) :: evs
            ∧ count is_login evs = 0%nat ∧ count is_lookup evs = 0%nat)
  ∧ ∀ phone2 n2 h,
      _normalize_phone phone2 = Returns n2 ->
      login env (trace w') = Returns h ->
      _client (snd (check_phone env phone2 w')) = Some h
      ∧ ∃ evs2, trace (snd (check_phone env phone2 w'))
                = trace w' ++ EvLogin (Returns h) :: evs2.
Proof.
  intros Hn Hc Hl w'.
  assert (Hw' : _client w' = None
                ∧ ∃ evs, trace w' = trace w ++ EvLogin (Raises e) :: evs
                         ∧ count is_login evs = 0%nat
                         ∧ count is_lookup evs = 0%nat).
  { subst w'. clear - Hn Hc Hl.
    pipeline_cases env phone w; try congruence;
      (split; [congruence|]);
      rewrite <- ?app_assoc; cbn [app];
      eexists; (split; [f_equal; f_equal; congruence|]);
      split; reflexivity. }
  destruct Hw' as [Hc' Hev]. split; [exact Hc'|]. split; [exact Hev|].
  intros phone2 n2 h Hn2 Hl2. revert Hc' Hl2. generalize w'. clear - Hn2.
  intros w1 Hc1 Hl1.
  pipeline_cases env phone2 w1; try congruence;
    (split; [congruence|]);
    rewrite <- ?app_assoc; cbn [app];
    eexists; f_equal; f_equal; congruence.
Qed.

Lemma check_phone_retries_login_next_time_witness :
  let w' := snd (check_phone env_flaky (lit "+1234567") initial) in
  _client w' = None
  ∧ (∃ evs, trace w'
            = trace initial
              ++ EvLogin (Raises (OtherError (lit "connection refused"))) :: evs
            ∧ count is_login evs = 0%nat ∧ count is_lookup evs = 0%nat)
  ∧ ∀ phone2 n2 h,
      _normalize_phone phone2 = Returns n2 ->
      login env_flaky (trace w') = Returns h ->
      _client (snd (check_phone env_flaky phone2 w')) = Some h
      ∧ ∃ evs2, trace (snd (check_phone env_flaky phone2 w'))
                = trace w' ++ EvLogin (Returns h) :: evs2.
Proof.
  apply (check_phone_retries_login_next_time env_flaky (lit "+1234567")
           (lit "+1234567") initial).
  - reflexivity.
  - reflexivity.
  - reflexivity.
Defined.

(** ** Any sequence of requests and shutdowns: the order of the calls *)

Lemma current_snoc tr ev : current (tr ++ [ev]) = current_step (current tr) ev.
Proof. unfold current. rewrite fold_left_app. reflexivity. Qed.

Lemma protocol_nil : protocol [].
Proof. intros pre ev post H. destruct pre; discriminate H. Qed.

Lemma protocol_snoc tr ev :
  protocol tr -> event_ok tr ev -> protocol (tr ++ [ev]).
Proof.
  intros Htr Hev pre ev' post Heq.
  destruct post as [|x post _] using rev_ind.
  - apply app_inj_tail in Heq as [-> ->]. exact Hev.
  - change (pre ++ ev' :: post ++ [x]) with (pre ++ (ev' :: post) ++ [x]) in Heq.
    rewrite app_assoc in Heq. apply app_inj_tail in Heq as [-> _].
    eapply Htr. reflexivity.
Qed.

Lemma sound_initial : sound initial.
Proof. split; [reflexivity | apply protocol_nil]. Qed.

Lemma sound_extend w ev c' :
  sound w -> event_ok (trace w) ev -> c' = current_step (_client w) ev ->
  sound {| _client := c'; trace := trace w ++ [ev] |}.
Proof.
  intros [Hc Hp] Hev ->. split; cbn [_client trace].
  - rewrite current_snoc, Hc. reflexivity.
  - apply protocol_snoc; assumption.
Qed.

Lemma sound_record w ev :
  sound w -> event_ok (trace w) ev -> current_step (_client w) ev = _client w ->
  sound (record ev w).
Proof.
  intros Hw Hev Hc. unfold record. apply sound_extend; [exact Hw | exact Hev|].
  symmetry. exact Hc.
Qed.

Lemma get_or_create_client_result env w c w1 :
  _get_or_create_client env w = (Returns c, w1) -> _client w1 = Some c.
Proof.
  rewrite get_or_create_client_unfold.
  destruct (_client w) as [h|] eqn:Hc.
  - intros [= <- <-]. exact Hc.
  - destruct (login env (trace w)); intros [= <- <-]. reflexivity.
Qed.

Lemma sound_get_or_create_client env w :
  sound w -> sound (snd (_get_or_create_client env w)).
Proof.
  intros Hw. rewrite get_or_create_client_unfold.
  destruct (_client w) as [h|] eqn:Hc; [exact Hw|].
  assert (Hcur : current (trace w) = None) by (destruct Hw; congruence).
  destruct (login env (trace w)) as [h|e]; cbn [snd].
  - apply sound_extend; [exact Hw | exact Hcur | rewrite Hc; reflexivity].
  - apply sound_record; [exact Hw | exact Hcur | reflexivity].
Qed.

Lemma sound_build_result_string env phone w :
  sound w -> sound (snd (_build_result_string env phone w)).
Proof.
  intros Hw. rewrite build_result_string_unfold.
  destruct (_normalize_phone phone) as [n|e] eqn:Hn; [|exact Hw].
  apply normalize_phone_returns in Hn as [_ Hshape].
  pose proof (sound_get_or_create_client env w Hw) as H1.
  destruct (_get_or_create_client env w) as [[c|e] w1] eqn:Hg;
    cbn [snd] in *; [|exact H1].
  apply get_or_create_client_result in Hg.
  assert (Hev : ∀ r, event_ok (trace w1) (EvLookup c n r)).
  { intros r. split; [destruct H1; congruence | exact Hshape]. }
  destruct (get_user_info_by_phone env (trace w1) c n); cbn [snd];
    apply sound_record; solve [exact H1 | apply Hev | reflexivity].
Qed.

Lemma build_result_string_raises env phone w e w' :
  _build_result_string env phone w = (Raises e, w') ->
  reaches_except_exception e ->
  ∃ pre' ev', trace w' = pre' ++ [ev'] ∧ is_disconnect ev' = false
              ∧ raised_by ev' = Some e.
Proof.
  rewrite build_result_string_unfold, get_or_create_client_unfold.
  assert (Hv : ∀ i, translate_info i = Raises e ->
                    reaches_except_exception e -> False).
  { intros i Ht He. apply translate_info_raises in Ht as [-> _].
    destruct He as [[t He]|(c & t & He)]; discriminate He. }
  destruct (_normalize_phone phone) as [n|e0] eqn:Hn.
  - destruct (_client w) as [h|].
    + destruct (get_user_info_by_phone env (trace w) h n) as [i|e1];
        intros [= Ht <-] He.
      * destruct (Hv i Ht He).
      * subst e1. eexists _, _. repeat split.
    + destruct (login env (trace w)) as [h|e1].
      * cbn [trace].
        destruct (get_user_info_by_phone env _ h n) as [i|e2];
          intros [= Ht <-] He.
        -- destruct (Hv i Ht He).
        -- subst e2. eexists _, _. repeat split.
      * intros [= <- <-] _. eexists _, _. repeat split.
  - intros [= <- <-] He. apply normalize_phone_raises in Hn as [t ->].
    destruct He as [[t' He]|(c & t' & He)]; discriminate He.
Qed.

Lemma sound_check_phone env phone w :
  sound w -> sound (snd (check_phone env phone w)).
Proof.
  intros Hw. pose proof (sound_build_result_string env phone w Hw) as H1.
  unfold check_phone.
  destruct (_build_result_string env phone w) as [[r|[t|t|c t|t]] w'] eqn:Hb;
    cbn [snd] in *; try exact H1;
    unfold bind, logger_exception, raise; cbn [snd];
    (apply sound_record; [exact H1 | | reflexivity]);
    (split;
     [ first [left; eexists; reflexivity | right; eexists _, _; reflexivity]
     | eapply build_result_string_raises; [exact Hb|];
       first [left; eexists; reflexivity | right; eexists _, _; reflexivity] ]).
Qed.

Lemma sound_shutdown_event env w :
  sound w -> sound (snd (shutdown_event env w)).
Proof.
  intros Hw. rewrite shutdown_event_unfold.
  destruct (_client w) as [h|] eqn:Hc; [|exact Hw].
  assert (Hcur : current (trace w) = Some h) by (destruct Hw; congruence).
  destruct (disconnect env (trace w) h) as [u|e]; cbn [snd].
  - apply sound_extend; [exact Hw | exact Hcur | reflexivity].
  - apply sound_record; [exact Hw | exact Hcur | rewrite Hc; reflexivity].
Qed.

Lemma sound_run env rqs w : sound w -> sound (run env rqs w).
Proof.
  unfold run. revert w. induction rqs as [|rq rqs IH]; intros w Hw;
    [exact Hw|].
  cbn [fold_left]. apply IH. destruct rq; cbn [serve].
  - apply sound_check_phone, Hw.
  - apply sound_check_phone, Hw.
  - apply sound_get_or_create_client, Hw.
  - apply sound_shutdown_event, Hw.
Qed.

(** X11. Through any sequence of requests, provider calls and shutdowns,
    [login] is called only while no handle exists: since the last login
    that gave a handle, a [disconnect] has completed. After a login that
    raised, the next login is again a first one. *)
Theorem run_login_only_without_handle
    (env : Env) (rqs : list request) (pre post : list event)
    (r : outcome handle) :
  trace (run env rqs initial) = pre ++ EvLogin r :: post ->
  current pre = None.
Proof.
  intros H. destruct (sound_run env rqs initial sound_initial) as [_ Hp].
  exact (Hp pre (EvLogin r) post H).
Qed.

Lemma run_login_only_without_handle_witness :
  current [ EvLogin (Returns 1%nat);
            EvLookup 1%nat (lit "+1234567")
              (Returns (Some {[ "username"%string := VStr (lit "alice") ]}));
            EvDisconnect 1%nat (Returns tt) ] = None.
Proof.
  apply (run_login_only_without_handle env_alice
           [GetRequest (lit "+1234567"); Shutdown; GetRequest (lit "+7 999 1234567")]
           _ [EvLookup 1%nat (lit "+79991234567")
                (Returns (Some {[ "username"%string := VStr (lit "alice") ]}))]
           (Returns 1%nat)).
  vm_compute. reflexivity.
Defined.

(** X12. Every lookup is made on the handle that exists at that moment
    (the one the last successful login gave, not yet disconnected) and with
    a phone that is [+] followed by 5 to 20 digits: the lookup never gets a
    raw input, and never a handle that was disconnected. *)
Theorem run_lookup_on_current_handle
    (env : Env) (rqs : list request) (pre post : list event)
    (c : handle) (p : str) (r : outcome info) :
  trace (run env rqs initial) = pre ++ EvLookup c p r :: post ->
  current pre = Some c ∧ phone_shape p.
Proof.
  intros H. destruct (sound_run env rqs initial sound_initial) as [_ Hp].
  exact (Hp pre (EvLookup c p r) post H).
Qed.

Lemma run_lookup_on_current_handle_witness :
  current [EvLogin (Returns 1%nat)] = Some 1%nat
  ∧ phone_shape (lit "+1234567").
Proof.
  apply (run_lookup_on_current_handle env_alice
           [GetRequest (lit " 1 234 567"); Shutdown]
           _ [EvDisconnect 1%nat (Returns tt)] 1%nat (lit "+1234567")
           (Returns (Some {[ "username"%string := VStr (lit "alice") ]}))).
  vm_compute. reflexivity.
Defined.

(** X13. [disconnect] is called only on the handle that exists at that
    moment: never without a handle, never on one already disconnected. *)
Theorem run_disconnect_on_current_handle
    (env : Env) (rqs : list request) (pre post : list event)
    (h : handle) (r : outcome unit) :
  trace (run env rqs initial) = pre ++ EvDisconnect h r :: post ->
  current pre = Some h.
Proof.
  intros H. destruct (sound_run env rqs initial sound_initial) as [_ Hp].
  exact (Hp pre (EvDisconnect h r) post H).
Qed.

Lemma run_disconnect_on_current_handle_witness :
  current [ EvLogin (Returns 1%nat);
            EvLookup 1%nat (lit "+1234567")
              (Returns (Some {[ "username"%string := VStr (lit "alice") ]})) ]
  = Some 1%nat.
Proof.
  apply (run_disconnect_on_current_handle env_alice
           [GetRequest (lit "+1234567"); Shutdown; Shutdown]
           _ [] 1%nat (Returns tt)).
  vm_compute. reflexivity.
Defined.

(** X14. What has been logged is never a format error: each log entry
    holds an exception that is neither a [ValueError] nor outside
    [Exception], and it comes directly after the [login] or the lookup
    that raised that exception. *)
Theorem run_log_follows_failed_call
    (env : Env) (rqs : list request) (pre post : list event)
    (p : str) (e : exn) :
  trace (run env rqs initial) = pre ++ EvLog p e :: post ->
  reaches_except_exception e
  ∧ ∃ pre' ev', pre = pre' ++ [ev'] ∧ is_disconnect ev' = false
                ∧ raised_by ev' = Some e.
Proof.
  intros H. destruct (sound_run env rqs initial sound_initial) as [_ Hp].
  exact (Hp pre (EvLog p e) post H).
Qed.

Lemma run_log_follows_failed_call_witness :
  reaches_except_exception (OtherError (lit "timed out"))
  ∧ ∃ pre' ev',
      [ EvLogin (Returns 1%nat);
        EvLookup 1%nat (lit "+1234567") (Raises (OtherError (lit "timed out"))) ]
      = pre' ++ [ev'] ∧ is_disconnect ev' = false
      ∧ raised_by ev' = Some (OtherError (lit "timed out")).
Proof.
  apply (run_log_follows_failed_call env_timeout
           [PostRequest {| phone := lit "+1 234 567" |}]
           _ [] (lit "+1 234 567") (OtherError (lit "timed out"))).
  vm_compute. reflexivity.
Defined.

(** X15. After any sequence of requests, provider calls and shutdowns,
    [_client] is what the trace says: the handle of the last successful
    login if no [disconnect] has completed since, and empty otherwise. *)
Theorem run_client_is_current (env : Env) (rqs : list request) :
  _client (run env rqs initial) = current (trace (run env rqs initial)).
Proof.
  destruct (sound_run env rqs initial sound_initial) as [Hc _]. exact Hc.
Qed.

(** ** Shutdown when [disconnect] may raise *)

Lemma repeat_call_succ {A} (m : M A) n w :
  snd (repeat_call m (S n) w) = snd (repeat_call m n (snd (m w))).
Proof.
  cbn [repeat_call]. destruct (m w) as [r w1]. cbn [snd].
  destruct (repeat_call m n w1). reflexivity.
Qed.

(** X16. Invoked any number of times on a handle, [shutdown_event] calls
    [disconnect] once per invocation for as long as [disconnect] raises,
    and keeps the handle meanwhile; the first [disconnect] that completes
    clears [_client], and after it [disconnect] is not called again. So
    [disconnect] completes at most once, and a failed one is tried again
    by the next shutdown. *)
Theorem repeat_shutdown_until_disconnected
    (env : Env) (n : nat) (w : world) (h : handle) :
  _client w = Some h ->
  let w' := snd (repeat_call (shutdown_event env) n w) in
  ∃ fails,
    Forall (λ ev, ∃ e, ev = EvDisconnect h (Raises e)) fails
    ∧ ( (trace w' = trace w ++ fails ∧ _client w' = Some h
         ∧ length fails = n)
      ∨ (trace w' = trace w ++ fails ++ [EvDisconnect h (Returns tt)]
         ∧ _client w' = None ∧ (length fails < n)%nat) ).
Proof.
  revert w. induction n as [|n IH]; intros w Hc; cbv zeta.
  - exists []. split; [constructor|]. left. cbn [repeat_call snd].
    rewrite app_nil_r. repeat split. exact Hc.
  - rewrite repeat_call_succ, shutdown_event_unfold, Hc.
    destruct (disconnect env (trace w) h) as [[]|e]; cbn [snd].
    + exists []. split; [constructor|]. right.
      rewrite (repeat_shutdown_without_client env
                 {| _client := None;
                    trace := trace w ++ [EvDisconnect h (Returns tt)] |}
                 n eq_refl).
      cbn [snd trace _client app length]. repeat split. lia.
    + specialize (IH (record (EvDisconnect h (Raises e)) w) Hc).
      cbv zeta in IH. destruct IH as (fails & Hf & IH).
      exists (EvDisconnect h (Raises e) :: fails). split.
      { constructor; [eexists; reflexivity | exact Hf]. }
      cbn [record trace] in IH. rewrite <- !app_assoc in IH. cbn [app] in IH.
      destruct IH as [(Ht & Hc' & Hl)|(Ht & Hc' & Hl)]; [left|right];
        cbn [length app]; repeat split; try assumption; lia.
Qed.

Lemma repeat_shutdown_until_disconnected_witness :
  let w' := snd (repeat_call (shutdown_event env_flaky) 3
                   {| _client := Some 2%nat;
                      trace := [EvLogin (Returns 2%nat)] |}) in
  ∃ fails,
    Forall (λ ev, ∃ e, ev = EvDisconnect 2%nat (Raises e)) fails
    ∧ ( (trace w' = [EvLogin (Returns 2%nat)] ++ fails
         ∧ _client w' = Some 2%nat ∧ length fails = 3%nat)
      ∨ (trace w' = [EvLogin (Returns 2%nat)] ++ fails
                    ++ [EvDisconnect 2%nat (Returns tt)]
         ∧ _client w' = None ∧ (length fails < 3)%nat) ).
Proof.
  apply (repeat_shutdown_until_disconnected env_flaky 3
           {| _client := Some 2%nat; trace := [EvLogin (Returns 2%nat)] |}
           2%nat).
  reflexivity.
Defined.

Example repeat_shutdown_flaky :
  repeat_call (shutdown_event env_flaky) 3
    {| _client := Some 2%nat; trace := [EvLogin (Returns 2%nat)] |}
  = ([Raises (OtherError (lit "database is locked")); Returns tt; Returns tt],
     {| _client := None;
        trace := [ EvLogin (Returns 2%nat);
                   EvDisconnect 2%nat
                     (Raises (OtherError (lit "database is locked")));
                   EvDisconnect 2%nat (Returns tt) ] |}).
Proof. vm_compute. reflexivity. Qed.
